(** * hermit: the QR-code reader ([hermit/qrcode/reader.py])

    A shallow embedding of the fragment parsers
    [_parse_specter_desktop_psbt] and [_parse_specter_desktop_accountmap],
    of [read_single_qr] and of the scanning loop [read_qr_code], together
    with the properties of the reader's specification.

    Python strings are modelled by [string]; the only characters the code
    inspects are the ASCII space, the letters [p], [o], [f] and the ASCII
    digits, so the byte view and the code-point view agree.  Python
    integers are [Z].  Exceptions are values of [exn] carried by [result];
    console output and camera calls are recorded in a trace of [effect]s. *)

From stdpp Require Import base numbers list strings.
From Stdlib Require Import Ascii DecimalString DecimalNat.

Local Open Scope Z_scope.

(** ** Exceptions and results *)

Inductive exn : Type :=
| ValueError (msg : string)
| TypeError (msg : string)
| IndexError (msg : string)
| KeyError (key : string)
| RuntimeError (msg : string).

Inductive result (A : Type) : Type :=
| Ok (a : A)
| Raise (e : exn).

Arguments Ok {A} a.
Arguments Raise {A} e.

Definition rbind {A B : Type} (r : result A) (f : A -> result B) : result B :=
  match r with
  | Ok a => f a
  | Raise e => Raise e
  end.

Notation "'let*' x ':=' r 'in' k" := (rbind r (fun x => k))
  (at level 20, x pattern, r at level 100, k at level 200, only parsing).

(** ** Strings: [str.split], [str.join], [int], [str] *)

Definition space : ascii := Ascii.ascii_of_nat 32.

(** [s.split(" ")]: one more part than there are spaces, never empty. *)
Fixpoint split_space (s : string) : list string :=
  match s with
  | EmptyString => [EmptyString]
  | String c rest =>
      if Ascii.eqb c space then EmptyString :: split_space rest
      else match split_space rest with
           | [] => [String c EmptyString]
           | part :: parts => String c part :: parts
           end
  end.

(** [sep.join(parts)] for a list of strings. *)
Definition join (sep : string) (parts : list string) : string :=
  String.concat sep parts.

Definition is_digit (c : ascii) : bool :=
  let n := Ascii.nat_of_ascii c in
  (Nat.leb 48 n && Nat.leb n 57)%bool.

Fixpoint all_digits (s : string) : bool :=
  match s with
  | EmptyString => true
  | String c rest => is_digit c && all_digits rest
  end.

Definition digit_value (c : ascii) : Z :=
  Z.of_nat (Ascii.nat_of_ascii c) - 48.

Fixpoint int_of_digits (acc : Z) (s : string) : Z :=
  match s with
  | EmptyString => acc
  | String c rest => int_of_digits (10 * acc + digit_value c) rest
  end.

(** [repr(s)] of a string without quotes or escapes in it. *)
Definition repr (s : string) : string := "'" +:+ s +:+ "'".

(** [str(n)] for a length. *)
Definition str_of_nat (n : nat) : string :=
  NilZero.string_of_uint (Nat.to_uint n).

(** [sys.int_info.default_max_str_digits]: [int] refuses a text of more
    digits than this, the default of the interpreter. *)
Definition int_max_str_digits : Z := 4300.

Definition within_digit_limit (s : string) : bool :=
  Z.of_nat (String.length s) <=? int_max_str_digits.

(** [int(s)] on the strings the reader passes to it: the groups of
    [[0-9]*], that is, possibly empty runs of ASCII digits.  The empty
    string is not a literal, and a run of more digits than the limit is
    refused; both are a [ValueError]. *)
Definition py_int (s : string) : result Z :=
  match s with
  | EmptyString =>
      Raise (ValueError ("invalid literal for int() with base 10: " +:+ repr s))
  | _ =>
      if all_digits s then
        if within_digit_limit s then Ok (int_of_digits 0 s)
        else Raise (ValueError
                      ("Exceeds the limit (4300 digits) for integer string conversion: value has "
                       +:+ str_of_nat (String.length s)
                       +:+ " digits; use sys.set_int_max_str_digits() to increase the limit"))
      else Raise (ValueError ("invalid literal for int() with base 10: " +:+ repr s))
  end.

(** ** The header pattern

    The reader calls [re.match] with the pattern: the letter p, a group
    of zero or more ASCII digits, the letters of, a second such group.
    [re.match] looks for the pattern at the start of [s] only and does
    not require it to reach the end of [s].  Both groups are greedy; no
    backtracking can shorten the first one, as the next pattern character
    o is not a digit.  The result is the pair of groups. *)

Fixpoint span_digits (s : string) : string * string :=
  match s with
  | EmptyString => (EmptyString, EmptyString)
  | String c rest =>
      if is_digit c
      then let '(ds, tl) := span_digits rest in (String c ds, tl)
      else (EmptyString, s)
  end.

Definition re_match_xofy (s : string) : option (string * string) :=
  match s with
  | String c0 rest =>
      if Ascii.eqb c0 "p"%char then
        let '(g1, rest1) := span_digits rest in
        match rest1 with
        | String c1 (String c2 rest2) =>
            if (Ascii.eqb c1 "o"%char && Ascii.eqb c2 "f"%char)%bool
            then Some (g1, fst (span_digits rest2))
            else None
        | _ => None
        end
      else None
  | EmptyString => None
  end.

(** ** The dictionary a parser returns

    The parsers build a dict with the keys ["x_int"], ["y_int"] and
    ["payload"]; the account-map parser leaves the first two out for a
    payload without header, and [read_single_qr] returns the empty dict
    when the frame shows no code. *)

Record qr_dict : Type := QrDict {
  x_int : option Z;
  y_int : option Z;
  payload : option string
}.

Definition empty_dict : qr_dict := QrDict None None None.

(** Truth value of a dict: it has some key. *)
Definition dict_bool (d : qr_dict) : bool :=
  match x_int d, y_int d, payload d with
  | None, None, None => false
  | _, _, _ => true
  end.

(** ** The parsers *)

Definition _parse_specter_desktop_psbt (qrcode_data : string) : result qr_dict :=
  let parts := split_space qrcode_data in
  match parts with
  | [_] => Ok (QrDict (Some 1) (Some 1) (Some qrcode_data))
  | [xofy; payload] =>
      match re_match_xofy xofy with
      | None => Raise (ValueError ("Invalid 2-part QR payload: " +:+ qrcode_data))
      | Some (g1, g2) =>
          let* x := py_int g1 in
          let* y := py_int g2 in
          Ok (QrDict (Some x) (Some y) (Some payload))
      end
  | _ =>
      Raise (ValueError ("Invalid " +:+ str_of_nat (length parts)
                         +:+ " part QR payload: " +:+ qrcode_data))
  end.

Section Reader.

(** [buidl.hd.parse_wshsortedmulti]: the external validator of an account
    map.  The reader drops its value; only whether it raises matters. *)
Variable parse_wshsortedmulti : string -> result unit.

Definition _parse_specter_desktop_accountmap (qrcode_data : string) : result qr_dict :=
  let parts := split_space qrcode_data in
  match parts with
  | [] => Raise (IndexError "list index out of range")
  | xofy :: rest =>
      match re_match_xofy xofy with
      | None =>
          let* _ := parse_wshsortedmulti qrcode_data in
          Ok (QrDict None None (Some qrcode_data))
      | Some (g1, g2) =>
          let* x := py_int g1 in
          let* y := py_int g2 in
          Ok (QrDict (Some x) (Some y) (Some (join " " rest)))
      end
  end.

(** ** List indexing as Python does it

    An index [i] with [0 <= i < len] names position [i]; an index with
    [-len <= i < 0] names position [len + i]; any other index raises
    [IndexError]. *)

Definition py_index {A : Type} (l : list A) (i : Z) : option nat :=
  let n := Z.of_nat (length l) in
  if (0 <=? i) && (i <? n) then Some (Z.to_nat i)
  else if (- n <=? i) && (i <? 0) then Some (Z.to_nat (i + n))
  else None.

Definition py_getitem {A : Type} (l : list A) (i : Z) : result A :=
  match py_index l i with
  | Some k =>
      match l !! k with
      | Some v => Ok v
      | None => Raise (IndexError "list index out of range")
      end
  | None => Raise (IndexError "list index out of range")
  end.

Definition py_setitem {A : Type} (l : list A) (i : Z) (v : A) : result (list A) :=
  match py_index l i with
  | Some k => Ok (<[k := v]> l)
  | None => Raise (IndexError "list assignment index out of range")
  end.

(** [None not in qrs_array] *)
Definition none_not_in (qrs : list (option string)) : bool :=
  forallb (fun slot => match slot with Some _ => true | None => false end) qrs.

(** [len([x for x in qrs_array if x is not None])] *)
Definition num_scanned (qrs : list (option string)) : nat :=
  length (filter (fun slot => is_Some slot) qrs).

(** [sep.join(qrs_array)]: every item has to be a string. *)
Fixpoint first_none (k : nat) (qrs : list (option string)) : option nat :=
  match qrs with
  | [] => None
  | None :: _ => Some k
  | Some _ :: rest => first_none (S k) rest
  end.

Definition join_slots (sep : string) (qrs : list (option string)) : result string :=
  match first_none 0 qrs with
  | Some k =>
      Raise (TypeError ("sequence item " +:+ str_of_nat k
                        +:+ ": expected str instance, NoneType found"))
  | None => Ok (join sep (omap id qrs))
  end.

(** ** Effects: console output and the camera *)

Inductive message : Type :=
| MsgQRScanned                       (* QR scanned! *)
| MsgStarting                        (* Starting QR code scanner ... *)
| MsgScanError (e : string)          (* QR Scan Error: e *)
| MsgScannedOf (n total : nat)       (* Scanned n of total QRs *)
| MsgAdding                          (* Adding to array *)
| MsgAlreadyScanned (x : Z)          (* Already scanned QR #x, ignoring *)
| MsgReleasing.                      (* Releasing camera and destorying window *)

Inductive effect : Type :=
| Print (m : message)
| CameraOpen
| CameraRead
| CameraRelease
| ImShow.

(** A computation prints and drives the camera, then returns or raises. *)
Definition M (A : Type) : Type := (list effect * result A)%type.

Definition ret {A : Type} (a : A) : M A := ([], Ok a).
Definition raise {A : Type} (e : exn) : M A := ([], Raise e).
Definition lift {A : Type} (r : result A) : M A := ([], r).
Definition emit (e : effect) : M unit := ([e], Ok tt).

Definition bind {A B : Type} (m : M A) (f : A -> M B) : M B :=
  match m with
  | (tr, Ok a) => let '(tr', r) := f a in (tr ++ tr', r)
  | (tr, Raise e) => (tr, Raise e)
  end.

Notation "'do' x <- m ; k" := (bind m (fun x => k))
  (at level 20, x pattern, m at level 100, k at level 200, only parsing).

(** [d[key]] for a key that may be missing. *)
Definition getitem {A : Type} (key : string) (field : option A) : M A :=
  match field with
  | Some v => ret v
  | None => raise (KeyError key)
  end.

(** ** [read_single_qr]

    The frame is modelled by what the decoder finds in it: the list of
    [barcode.data.decode("utf-8").strip()], one text per barcode, in the
    order [pyzbar.decode] gives them.  Only the first one is parsed. *)

Definition valid_qrtype (qrtype : string) : bool :=
  bool_decide (qrtype = "accountmap") || bool_decide (qrtype = "psbt").

Definition read_single_qr (frame : list string) (qrtype : string) : M qr_dict :=
  if negb (valid_qrtype qrtype)
  then raise (RuntimeError ("Invalid QR Code Type " +:+ qrtype))
  else
    match frame with
    | qrcode_data :: _ =>
        do single_qr_dict <-
          lift (if bool_decide (qrtype = "psbt")
                then _parse_specter_desktop_psbt qrcode_data
                else _parse_specter_desktop_accountmap qrcode_data) ;
        do _ <- emit (Print MsgQRScanned) ;
        ret single_qr_dict
    | [] => ret empty_dict
    end.

(** ** The scanning loop of [read_qr_code]

    One turn of the [while True] loop sees the key [cv2.waitKey(1)]
    returns and the frame [camera.read()] returns next. *)

Record tick : Type := Tick {
  key : Z;
  frame : list string
}.

(** [cv2.waitKey(1) & 0xFF == 27]: the escape key. *)
Definition esc_pressed (t : tick) : bool := Z.land (key t) 255 =? 27.

(** How a turn of the loop ends. *)
Inductive control : Type :=
| Continue
| Break
| Return (v : string).

(** The part of the loop body that handles a scanned dict: the
    whole-payload return, the allocation of [qrs_array] on the first
    frame of many, the fill of one slot, and the completeness test.

    Memory is not modelled: the allocation of [y_int] slots is taken to
    succeed, where the interpreter raises [MemoryError] for a part
    count beyond what the machine holds.  What is proved of a first
    fragment is proved for part counts the machine can allocate. *)
Definition absorb (qrs_array : list (option string)) (single_qr_dict : qr_dict)
  : M (control * list (option string)) :=
  if default 1 (y_int single_qr_dict) =? 1 then
    do v <- getitem "payload" (payload single_qr_dict) ;
    ret (Return v, qrs_array)
  else
    do qrs_array <-
      match qrs_array with
      | [] =>
          do y <- getitem "y_int" (y_int single_qr_dict) ;
          ret (replicate (Z.to_nat y) None)
      | _ :: _ => ret qrs_array
      end ;
    do _ <- emit (Print (MsgScannedOf (num_scanned qrs_array) (length qrs_array))) ;
    do x <- getitem "x_int" (x_int single_qr_dict) ;
    do slot <- lift (py_getitem qrs_array (x - 1)) ;
    do qrs_array <-
      match slot with
      | None =>
          do _ <- emit (Print MsgAdding) ;
          do v <- getitem "payload" (payload single_qr_dict) ;
          lift (py_setitem qrs_array (x - 1) (Some v))
      | Some _ =>
          do _ <- emit (Print (MsgAlreadyScanned x)) ;
          ret qrs_array
      end ;
    if none_not_in qrs_array then ret (Break, qrs_array)
    else ret (Continue, qrs_array).

(** One turn of the loop.  A [ValueError] of the parser is printed and
    the turn ends; any other exception leaves the function. *)
Definition iteration (qrtype : string) (qrs_array : list (option string)) (t : tick)
  : M (control * list (option string)) :=
  do _ <- emit ImShow ;
  if esc_pressed t then ret (Break, qrs_array)
  else
    do _ <- emit CameraRead ;
    match read_single_qr (frame t) qrtype with
    | (tr, Raise (ValueError e)) =>
        (tr ++ [Print (MsgScanError e)], Ok (Continue, qrs_array))
    | (tr, Raise e) => (tr, Raise e)
    | (tr, Ok single_qr_dict) =>
        do _ <- (tr, Ok tt) ;
        if negb (dict_bool single_qr_dict) then ret (Continue, qrs_array)
        else absorb qrs_array single_qr_dict
    end.

(** How the loop stands after the turns it was given. *)
Inductive loop_exit : Type :=
| Running                  (* the loop waits for the next frame *)
| Left                     (* a [break] left the loop *)
| Returned (v : string).   (* the [return] inside the loop *)

Fixpoint scan_loop (qrtype : string) (qrs_array : list (option string))
    (ticks : list tick) : M (loop_exit * list (option string)) :=
  match ticks with
  | [] => ret (Running, qrs_array)
  | t :: ticks' =>
      do (c, qrs_array') <- iteration qrtype qrs_array t ;
      match c with
      | Continue => scan_loop qrtype qrs_array' ticks'
      | Break => ret (Left, qrs_array')
      | Return v => ret (Returned v, qrs_array')
      end
  end.

(** What [read_qr_code] has done after the turns it was given. *)
Inductive outcome : Type :=
| StillScanning
| Result (v : string).

Definition read_qr_code (qrtype : string) (ticks : list tick) : M outcome :=
  if negb (valid_qrtype qrtype)
  then raise (RuntimeError ("Invalid QR Code Type " +:+ qrtype))
  else
    do _ <- emit CameraOpen ;
    do _ <- emit CameraRead ;
    do _ <- emit (Print MsgStarting) ;
    do (ex, qrs_array) <- scan_loop qrtype [] ticks ;
    match ex with
    | Running => ret StillScanning
    | Returned v => ret (Result v)
    | Left =>
        do _ <- emit (Print MsgReleasing) ;
        do _ <- emit CameraRelease ;
        do result_payload <- lift (join_slots EmptyString qrs_array) ;
        ret (Result result_payload)
    end.

End Reader.

(** ** A validator to run the reader with

    [buidl]'s validator looks for a [wsh(sortedmulti(] descriptor inside
    the text it is given and then checks the keys of the descriptor.
    The theorems take the validator as a parameter.  This stand-in only
    looks for the opening of a descriptor, so it accepts texts that
    [buidl] rejects, and it raises [ValueError] only.  It instantiates
    the validator where the reader is run on a concrete input; where
    such a run has the validator accept a text, the text is built on
    [sample_descriptor] below, whose keys are real. *)

Fixpoint contains (needle s : string) : bool :=
  String.prefix needle s
  || match s with
     | EmptyString => false
     | String _ rest => contains needle rest
     end.

Definition sample_validator (text : string) : result unit :=
  if contains "wsh(sortedmulti(" text then Ok tt
  else Raise (ValueError ("Not a valid wsh sortedmulti: " +:+ text)).

(** An account map to run the reader on: a one-of-two
    [wsh(sortedmulti(...))] descriptor whose two keys are the extended
    public keys at m/48h/0h/0h/2h of the first two BIP32 test vectors,
    each with the fingerprint of its master key. *)
Definition sample_descriptor : string :=
  "wsh(sortedmulti(1,[3442193e/48h/0h/0h/2h]xpub6E64WfdQwBGz85XhbZryr9gUGUPBgoSu5WV6tJWpzAvgAmpVpdPHkT3XYm9R5J6MeWzvLQoz4q845taC9Q28XutbptxAmg7q8QPkjvTL4oi/0/*,[bd16bee5/48h/0h/0h/2h]xpub6DwQ4gBCmJZM3TaKogP41tpjuEwnMH2nWEi3PFev37LfsWPvjZrh1GfAG8xvoDYMPWGKG1oBPMCfKpkVbJtUHRaqRdCb6X6o1e9PQTVK88a/0/*))".

(** * Notions used in the statements *)

(** The text has a space in it. *)
Fixpoint has_space (s : string) : bool :=
  match s with
  | EmptyString => false
  | String c rest => Ascii.eqb c space || has_space rest
  end.

(** The first character, if there is one, is a digit. *)
Definition starts_with_digit (s : string) : bool :=
  match s with
  | EmptyString => false
  | String c _ => is_digit c
  end.

(** The text has a character. *)
Definition nonempty (s : string) : bool :=
  match s with
  | EmptyString => false
  | String _ _ => true
  end.

(** A token begins with a header when the pattern matches it with two
    groups that are not empty. *)
Definition begins_with_header (tok : string) : bool :=
  match re_match_xofy tok with
  | Some (g1, g2) => nonempty g1 && nonempty g2
  | None => false
  end.

(** A token begins with a header that [int] reads: the pattern matches
    it with two groups of at least one and at most 4300 digits. *)
Definition readable_header (tok : string) : bool :=
  match re_match_xofy tok with
  | Some (g1, g2) =>
      nonempty g1 && nonempty g2
      && within_digit_limit g1 && within_digit_limit g2
  | None => false
  end.

(** The text begins with p, a run of digits that may be empty, and of. *)
Definition begins_like_header (s : string) : Prop :=
  exists d tl, s = "p" +:+ d +:+ "of" +:+ tl /\ all_digits d = true.

(** The header grammar of the wire format: the whole token is p, a run
    of at least one digit, of, a run of at least one digit. *)
Definition is_header (tok : string) : bool :=
  match re_match_xofy tok with
  | Some (g1, g2) =>
      nonempty g1 && nonempty g2
      && String.eqb tok ("p" +:+ g1 +:+ "of" +:+ g2)
  | None => false
  end.

(** The array [absorb] works on: allocated from the part count of the
    first fragment of several, kept afterwards. *)
Definition allocated (qrs : list (option string)) (y : Z) : list (option string) :=
  match qrs with
  | [] => replicate (Z.to_nat y) None
  | _ :: _ => qrs
  end.

(** [camera.release()] *)
Definition is_release (e : effect) : bool :=
  match e with
  | CameraRelease => true
  | _ => false
  end.

(** How many times a trace releases the camera. *)
Definition releases (tr : list effect) : nat :=
  length (List.filter is_release tr).

(** A computation is quiet when it does not release the camera. *)
Definition quiet {A : Type} (m : M A) : Prop := releases (fst m) = 0%nat.

(** The frame of this turn shows a code that is a whole payload. *)
Definition carries_whole_payload (validate : string -> result unit)
    (qrtype : string) (t : tick) : bool :=
  match snd (read_single_qr validate (frame t) qrtype) with
  | Ok d => dict_bool d && (default 1 (y_int d) =? 1)
  | Raise _ => false
  end.

(** What [read_qr_code] prints and does before the loop. *)
Definition prologue : list effect :=
  [CameraOpen; CameraRead; Print MsgStarting].

(** What follows a [break]: the camera is released, then the slots are
    joined. *)
Definition epilogue : list effect := [Print MsgReleasing; CameraRelease].

(** A fragment of several, as both parsers return it. *)
Definition fragment (x y : Z) (v : string) : qr_dict :=
  QrDict (Some x) (Some y) (Some v).

(** The frame of this turn adds nothing: it shows no code, or a code
    the parser rejects with [ValueError], and the escape key is not
    pressed. *)
Definition shows_nothing (validate : string -> result unit) (qrtype : string)
    (t : tick) : bool :=
  negb (esc_pressed t)
  && match snd (read_single_qr validate (frame t) qrtype) with
     | Ok d => negb (dict_bool d)
     | Raise (ValueError _) => true
     | Raise _ => false
     end.

(** The frame cut down to its first code. *)
Definition first_code_only (t : tick) : tick :=
  Tick (key t) (take 1 (frame t)).

(** The dict fits the payload [texts] cut in as many parts as the list
    is long: it is empty, or it says it is part x of that many, with x
    at least 1, and carries the text of part x. *)
Definition dict_fits (texts : list string) (d : qr_dict) : bool :=
  negb (dict_bool d)
  || match x_int d, y_int d, payload d with
     | Some x, Some y, Some v =>
         (y =? Z.of_nat (length texts)) && (1 <=? x)
         && bool_decide (texts !! Z.to_nat (x - 1) = Some v)
     | _, _, _ => false
     end.

(** The turn fits the payload: no escape key, and the frame shows no
    code, a code the parser rejects with [ValueError], or a part of the
    payload. *)
Definition frame_fits (validate : string -> result unit) (qrtype : string)
    (texts : list string) (t : tick) : bool :=
  negb (esc_pressed t)
  && match snd (read_single_qr validate (frame t) qrtype) with
     | Ok d => dict_fits texts d
     | Raise (ValueError _) => true
     | Raise _ => false
     end.

(** The frame of this turn shows part [k + 1]. *)
Definition shows_part (validate : string -> result unit) (qrtype : string)
    (k : nat) (t : tick) : bool :=
  match snd (read_single_qr validate (frame t) qrtype) with
  | Ok d => bool_decide (x_int d = Some (Z.of_nat (S k)))
  | Raise _ => false
  end.

(** Every filled slot holds the text of its part. *)
Definition slots_fit (texts : list string) (qrs : list (option string)) : Prop :=
  Forall2 (fun slot txt => slot = None \/ slot = Some txt) qrs texts.

(** Slot [j] is filled. *)
Definition is_filled (qrs : list (option string)) (j : nat) : Prop :=
  exists s, qrs !! j = Some (Some s).

(** * Properties *)

(** ** Splitting and joining *)

Lemma split_space_not_nil (s : string) : split_space s <> [].
Proof.
  induction s as [|c s IH]; simpl; [discriminate|].
  destruct (Ascii.eqb c space); [discriminate|].
  destruct (split_space s); discriminate.
Qed.

Lemma split_space_no_space (s : string) :
  has_space s = false -> split_space s = [s].
Proof.
  induction s as [|c s IH]; simpl; [reflexivity|].
  destruct (Ascii.eqb c space); simpl; [discriminate|].
  intros H. rewrite (IH H). reflexivity.
Qed.

Lemma split_space_single (s t : string) :
  split_space s = [t] -> t = s /\ has_space s = false.
Proof.
  revert t. induction s as [|c s IH]; simpl; intros t H.
  - inversion H. split; reflexivity.
  - destruct (Ascii.eqb c space) eqn:E; simpl.
    + inversion H as [[H1 H2]]. exfalso. exact (split_space_not_nil _ H2).
    + destruct (split_space s) as [|p ps] eqn:Es.
      * exfalso. exact (split_space_not_nil _ Es).
      * inversion H; subst.
        destruct (IH p eq_refl) as [-> ->]. split; reflexivity.
Qed.

Lemma split_space_app (h body : string) :
  has_space h = false ->
  split_space (h +:+ String space body) = h :: split_space body.
Proof.
  induction h as [|c h IH]; simpl; intros H.
  - reflexivity.
  - destruct (Ascii.eqb c space); simpl in H; [discriminate|].
    rewrite (IH H). reflexivity.
Qed.

Lemma split_space_head_no_space (s h : string) (rest : list string) :
  split_space s = h :: rest -> has_space h = false.
Proof.
  revert h rest. induction s as [|c s IH]; simpl; intros h rest H.
  - inversion H. reflexivity.
  - destruct (Ascii.eqb c space) eqn:E.
    + inversion H. reflexivity.
    + destruct (split_space s) as [|p ps] eqn:Es.
      * exfalso. exact (split_space_not_nil _ Es).
      * inversion H; subst; simpl.
        rewrite E. simpl. exact (IH p rest eq_refl).
Qed.

(** Joining the parts with single spaces gives the text back. *)
Lemma join_split_space (s : string) : join " " (split_space s) = s.
Proof.
  unfold join. induction s as [|c s IH]; simpl; [reflexivity|].
  destruct (split_space s) as [|p ps] eqn:Es;
    [exfalso; exact (split_space_not_nil _ Es)|].
  destruct (Ascii.eqb c space) eqn:E.
  - apply Ascii.eqb_eq in E. subst c.
    change (String.concat " " (EmptyString :: p :: ps))
      with (String space (String.concat " " (p :: ps))).
    rewrite IH. reflexivity.
  - destruct ps as [|q qs].
    + simpl in *. rewrite IH. reflexivity.
    + change (String.concat " " (String c p :: q :: qs))
        with (String c (String.concat " " (p :: q :: qs))).
      rewrite IH. reflexivity.
Qed.

(** The parts after the first one, rejoined, are the text after the
    first space. *)
Lemma join_rest_after_first_space (h body : string) :
  has_space h = false ->
  exists rest, split_space (h +:+ String space body) = h :: rest
               /\ join " " rest = body.
Proof.
  intros H. exists (split_space body). split.
  - apply split_space_app, H.
  - apply join_split_space.
Qed.

(** ** The header pattern *)

Lemma span_digits_app (d t : string) :
  all_digits d = true -> starts_with_digit t = false ->
  span_digits (d +:+ t) = (d, t).
Proof.
  induction d as [|c d IH]; simpl; intros Hd Ht.
  - destruct t as [|c t]; [reflexivity|]. simpl in *. rewrite Ht. reflexivity.
  - apply andb_true_iff in Hd as [Hc Hd]. rewrite Hc, (IH Hd Ht). reflexivity.
Qed.

Lemma span_digits_spec (s d t : string) :
  span_digits s = (d, t) ->
  s = d +:+ t /\ all_digits d = true /\ starts_with_digit t = false.
Proof.
  revert d t. induction s as [|c s IH]; simpl; intros d t H.
  - inversion H. repeat split.
  - destruct (is_digit c) eqn:Ec.
    + destruct (span_digits s) as [ds tl]. inversion H; subst.
      destruct (IH ds t eq_refl) as (-> & Hd & Ht).
      simpl. rewrite Ec, Hd. repeat split. exact Ht.
    + inversion H; subst. simpl. rewrite Ec. repeat split.
Qed.

(** What the pattern finds: the text starts with p, the first group, of,
    the second group, and the second group cannot be made longer. *)
Lemma re_match_xofy_sound (s g1 g2 : string) :
  re_match_xofy s = Some (g1, g2) ->
  exists tl, s = "p" +:+ g1 +:+ "of" +:+ g2 +:+ tl
             /\ all_digits g1 = true /\ all_digits g2 = true
             /\ starts_with_digit tl = false.
Proof.
  unfold re_match_xofy. destruct s as [|c0 s]; [discriminate|].
  destruct (Ascii.eqb c0 "p") eqn:E0; [|discriminate].
  apply Ascii.eqb_eq in E0. subst c0.
  destruct (span_digits s) as [d1 r1] eqn:E1.
  destruct r1 as [|c1 [|c2 r2]]; try discriminate.
  destruct (Ascii.eqb c1 "o") eqn:Eo; [|discriminate].
  destruct (Ascii.eqb c2 "f") eqn:Ef; [|discriminate].
  apply Ascii.eqb_eq in Eo, Ef. subst c1 c2. simpl.
  intros H. inversion H; subst. clear H.
  destruct (span_digits r2) as [d2 tl] eqn:E2. simpl.
  apply span_digits_spec in E1 as (-> & Hd1 & _).
  apply span_digits_spec in E2 as (-> & Hd2 & Htl).
  exists tl. repeat split; auto.
Qed.

(** Every text of that shape is matched, with exactly these groups. *)
Lemma re_match_xofy_complete (g1 g2 tl : string) :
  all_digits g1 = true -> all_digits g2 = true ->
  starts_with_digit tl = false ->
  re_match_xofy ("p" +:+ g1 +:+ "of" +:+ g2 +:+ tl) = Some (g1, g2).
Proof.
  intros H1 H2 Ht.
  change (re_match_xofy (String "p" (g1 +:+ String "o" (String "f" (g2 +:+ tl))))
          = Some (g1, g2)).
  unfold re_match_xofy.
  rewrite (span_digits_app g1 (String "o" (String "f" (g2 +:+ tl))) H1 eq_refl).
  simpl.
  rewrite (span_digits_app g2 tl H2 Ht). reflexivity.
Qed.

Lemma app_empty_r (s : string) : s +:+ EmptyString = s.
Proof.
  induction s as [|c s IH]; [reflexivity|].
  change (String c (s +:+ EmptyString) = String c s). rewrite IH. reflexivity.
Qed.

Lemma re_match_xofy_header (g1 g2 : string) :
  all_digits g1 = true -> all_digits g2 = true ->
  re_match_xofy ("p" +:+ g1 +:+ "of" +:+ g2) = Some (g1, g2).
Proof.
  intros H1 H2.
  rewrite <- (app_empty_r g2) at 1.
  apply re_match_xofy_complete; auto.
Qed.

(** A text the pattern does not match does not start with p, digits, of. *)
Lemma re_match_xofy_None (s d tl : string) :
  re_match_xofy s = None -> all_digits d = true ->
  s <> "p" +:+ d +:+ "of" +:+ tl.
Proof.
  intros Hn Hd ->.
  change (re_match_xofy (String "p" (d +:+ String "o" (String "f" tl))) = None) in Hn.
  unfold re_match_xofy in Hn.
  rewrite (span_digits_app d (String "o" (String "f" tl)) Hd eq_refl) in Hn.
  simpl in Hn. discriminate.
Qed.

Lemma py_int_digits (s : string) :
  nonempty s = true -> all_digits s = true -> within_digit_limit s = true ->
  py_int s = Ok (int_of_digits 0 s).
Proof.
  destruct s as [|c s]; [discriminate|]. intros _ H L. unfold py_int.
  rewrite H, L. reflexivity.
Qed.

Lemma py_int_empty : exists msg, py_int EmptyString = Raise (ValueError msg).
Proof. eexists. reflexivity. Qed.

Lemma py_int_cases (s : string) :
  (nonempty s = true /\ all_digits s = true /\ within_digit_limit s = true
   /\ py_int s = Ok (int_of_digits 0 s))
  \/ exists msg, py_int s = Raise (ValueError msg).
Proof.
  destruct s as [|c s]; [right; apply py_int_empty|].
  unfold py_int. destruct (all_digits (String c s)) eqn:E.
  - destruct (within_digit_limit (String c s)) eqn:L.
    + left. auto.
    + right. eexists. reflexivity.
  - right. eexists. reflexivity.
Qed.

Lemma is_header_iff (tok : string) :
  is_header tok = true <->
  exists d1 d2, tok = "p" +:+ d1 +:+ "of" +:+ d2
                /\ nonempty d1 = true /\ all_digits d1 = true
                /\ nonempty d2 = true /\ all_digits d2 = true.
Proof.
  unfold is_header. split.
  - destruct (re_match_xofy tok) as [[g1 g2]|] eqn:E; [|discriminate].
    intros H. apply andb_true_iff in H as [H H3].
    apply andb_true_iff in H as [H1 H2].
    apply String.eqb_eq in H3.
    apply re_match_xofy_sound in E as (tl & _ & Hd1 & Hd2 & _).
    exists g1, g2. auto.
  - intros (d1 & d2 & -> & N1 & D1 & N2 & D2).
    rewrite (re_match_xofy_header d1 d2 D1 D2), N1, N2, String.eqb_refl.
    reflexivity.
Qed.

Lemma span_digits_fst_nonempty (d tl : string) :
  nonempty d = true -> all_digits d = true ->
  nonempty (fst (span_digits (d +:+ tl))) = true.
Proof.
  destruct d as [|c d]; [discriminate|]. intros _ H. simpl in H.
  apply andb_true_iff in H as [Hc _].
  change (String c d +:+ tl) with (String c (d +:+ tl)). simpl.
  rewrite Hc. destruct (span_digits (d +:+ tl)). reflexivity.
Qed.

Lemma begins_with_header_iff (tok : string) :
  begins_with_header tok = true <->
  exists d1 d2 tl, tok = "p" +:+ d1 +:+ "of" +:+ d2 +:+ tl
                   /\ nonempty d1 = true /\ all_digits d1 = true
                   /\ nonempty d2 = true /\ all_digits d2 = true.
Proof.
  unfold begins_with_header. split.
  - destruct (re_match_xofy tok) as [[g1 g2]|] eqn:E; [|discriminate].
    intros H. apply andb_true_iff in H as [H1 H2].
    apply re_match_xofy_sound in E as (tl & -> & Hd1 & Hd2 & _).
    exists g1, g2, tl. auto.
  - intros (d1 & d2 & tl & -> & N1 & D1 & N2 & D2).
    change (re_match_xofy ("p" +:+ d1 +:+ "of" +:+ d2 +:+ tl))
      with (re_match_xofy (String "p" (d1 +:+ String "o" (String "f" (d2 +:+ tl))))).
    unfold re_match_xofy.
    rewrite (span_digits_app d1 (String "o" (String "f" (d2 +:+ tl))) D1 eq_refl).
    simpl. rewrite N1, (span_digits_fst_nonempty d2 tl N2 D2). reflexivity.
Qed.

Lemma is_header_begins (tok : string) :
  is_header tok = true -> begins_with_header tok = true.
Proof.
  unfold is_header, begins_with_header.
  destruct (re_match_xofy tok) as [[g1 g2]|]; [|discriminate].
  intros H. apply andb_true_iff in H as [H _]. exact H.
Qed.

(** ** The parsers *)

Lemma psbt_single_token (raw : string) :
  has_space raw = false ->
  _parse_specter_desktop_psbt raw = Ok (QrDict (Some 1) (Some 1) (Some raw)).
Proof.
  intros H. unfold _parse_specter_desktop_psbt.
  rewrite (split_space_no_space raw H). reflexivity.
Qed.

(** The transaction parser takes a two-token text exactly when its first
    token begins with a header. *)
Lemma psbt_two_tokens (raw h body : string) :
  split_space raw = [h; body] ->
  match re_match_xofy h with
  | Some (g1, g2) =>
      _parse_specter_desktop_psbt raw =
        (let* x := py_int g1 in
         let* y := py_int g2 in
         Ok (QrDict (Some x) (Some y) (Some body)))
  | None => exists msg, _parse_specter_desktop_psbt raw = Raise (ValueError msg)
  end.
Proof.
  intros H. unfold _parse_specter_desktop_psbt. rewrite H.
  destruct (re_match_xofy h) as [[g1 g2]|]; [reflexivity|].
  eexists. reflexivity.
Qed.

Lemma int_groups_fail (A : Type) (g1 g2 : string) (k : Z -> Z -> result A) :
  nonempty g1 && nonempty g2 = false ->
  all_digits g1 = true -> all_digits g2 = true ->
  exists msg, (let* x := py_int g1 in let* y := py_int g2 in k x y)
              = Raise (ValueError msg).
Proof.
  intros H D1 D2. destruct g1 as [|c1 g1].
  - eexists. reflexivity.
  - destruct g2 as [|c2 g2]; [|discriminate].
    destruct (py_int_cases (String c1 g1)) as [(_ & _ & _ & ->)|[msg ->]];
      eexists; reflexivity.
Qed.

Lemma int_groups_ok (A : Type) (g1 g2 : string) (k : Z -> Z -> result A) :
  nonempty g1 = true -> all_digits g1 = true -> within_digit_limit g1 = true ->
  nonempty g2 = true -> all_digits g2 = true -> within_digit_limit g2 = true ->
  (let* x := py_int g1 in let* y := py_int g2 in k x y)
  = k (int_of_digits 0 g1) (int_of_digits 0 g2).
Proof.
  intros N1 D1 L1 N2 D2 L2.
  rewrite (py_int_digits g1 N1 D1 L1), (py_int_digits g2 N2 D2 L2).
  reflexivity.
Qed.

Lemma accountmap_header_tokens (validate : string -> result unit)
    (raw d1 d2 : string) (rest : list string) :
  nonempty d1 = true -> all_digits d1 = true -> within_digit_limit d1 = true ->
  nonempty d2 = true -> all_digits d2 = true -> within_digit_limit d2 = true ->
  split_space raw = ("p" +:+ d1 +:+ "of" +:+ d2) :: rest ->
  _parse_specter_desktop_accountmap validate raw
  = Ok (QrDict (Some (int_of_digits 0 d1)) (Some (int_of_digits 0 d2))
          (Some (join " " rest))).
Proof.
  intros N1 D1 L1 N2 D2 L2 Hs.
  unfold _parse_specter_desktop_accountmap. rewrite Hs.
  rewrite (re_match_xofy_header d1 d2 D1 D2).
  apply (int_groups_ok _ d1 d2
           (fun x y => Ok (QrDict (Some x) (Some y) (Some (join " " rest)))));
    assumption.
Qed.

(** The pattern fails on a text exactly when the text does not begin
    with p, digits, of. *)
Lemma re_match_xofy_None_iff (s : string) :
  re_match_xofy s = None <-> ~ begins_like_header s.
Proof.
  split.
  - intros Hn (d & tl & -> & Hd). exact (re_match_xofy_None _ d tl Hn Hd eq_refl).
  - intros Hb. destruct (re_match_xofy s) as [[g1 g2]|] eqn:E; [|reflexivity].
    exfalso. apply Hb.
    apply re_match_xofy_sound in E as (tl & -> & D1 & _).
    exists g1, (g2 +:+ tl). auto.
Qed.

(** C2, amended.  For a text without a space, the transaction parser
    returns part index 1, part count 1 and the text unchanged.  The
    account-map parser looks at the start of the text first.  A text
    that does not begin with p, digits, of goes to the validator and,
    if the validator accepts it, comes back unchanged in a dict that
    has neither part index nor part count (if the validator raises, so
    does the parser); the scanning loop reads the missing part count as
    1 and returns the text as the whole payload.  A text that is a
    header and nothing else, p, digits, of, digits with runs of 1 to
    4300 digits, is read as the fragment with these two numbers and the
    empty text, and the validator is not asked. *)
Theorem single_token_parse (validate : string -> result unit) (raw : string) :
  has_space raw = false ->
  _parse_specter_desktop_psbt raw = Ok (QrDict (Some 1) (Some 1) (Some raw))
  /\ (~ begins_like_header raw ->
      (validate raw = Ok tt ->
       _parse_specter_desktop_accountmap validate raw
       = Ok (QrDict None None (Some raw)))
      /\ (forall e, validate raw = Raise e ->
          _parse_specter_desktop_accountmap validate raw = Raise e))
  /\ (forall d1 d2,
        raw = "p" +:+ d1 +:+ "of" +:+ d2 ->
        nonempty d1 = true -> all_digits d1 = true ->
        within_digit_limit d1 = true ->
        nonempty d2 = true -> all_digits d2 = true ->
        within_digit_limit d2 = true ->
        _parse_specter_desktop_accountmap validate raw
        = Ok (QrDict (Some (int_of_digits 0 d1)) (Some (int_of_digits 0 d2))
                (Some EmptyString)))
  /\ (forall qrs,
      absorb qrs (QrDict None None (Some raw)) = ([], Ok (Return raw, qrs))).
Proof.
  intros H. split; [exact (psbt_single_token raw H)|].
  split; [|split].
  - intros Hb. apply re_match_xofy_None_iff in Hb.
    unfold _parse_specter_desktop_accountmap.
    rewrite (split_space_no_space raw H), Hb. split.
    + intros ->. reflexivity.
    + intros e ->. reflexivity.
  - intros d1 d2 -> N1 D1 L1 N2 D2 L2.
    exact (accountmap_header_tokens validate _ d1 d2 [] N1 D1 L1 N2 D2 L2
             (split_space_no_space _ H)).
  - intros qrs. reflexivity.
Qed.

Lemma single_token_parse_witness :
  has_space sample_descriptor = false
  /\ _parse_specter_desktop_psbt sample_descriptor
     = Ok (QrDict (Some 1) (Some 1) (Some sample_descriptor))
  /\ _parse_specter_desktop_accountmap sample_validator sample_descriptor
     = Ok (QrDict None None (Some sample_descriptor))
  /\ _parse_specter_desktop_accountmap sample_validator "p2of3"
     = Ok (QrDict (Some 2) (Some 3) (Some EmptyString)).
Proof.
  assert (H : has_space sample_descriptor = false) by reflexivity.
  destruct (single_token_parse sample_validator _ H) as (H1 & H2 & _).
  split; [exact H|]. split; [exact H1|]. split.
  - apply H2; [|reflexivity].
    apply re_match_xofy_None_iff. reflexivity.
  - assert (H' : has_space "p2of3" = false) by reflexivity.
    destruct (single_token_parse sample_validator _ H') as (_ & _ & H3 & _).
    exact (H3 "2" "3" eq_refl eq_refl eq_refl eq_refl eq_refl eq_refl eq_refl).
Defined.

(** C2 as stated fails for the account-map kind: the text p2of3 has no
    space, and the parser reads it as part 2 of 3 with the empty text,
    without asking the validator. *)
Lemma single_token_accountmap_counterexample :
  has_space "p2of3" = false
  /\ _parse_specter_desktop_accountmap sample_validator "p2of3"
     = Ok (QrDict (Some 2) (Some 3) (Some EmptyString))
  /\ _parse_specter_desktop_accountmap sample_validator "p2of3"
     <> Ok (QrDict (Some 1) (Some 1) (Some "p2of3")).
Proof. repeat split. discriminate. Qed.

(** C3, amended.  Take a two-token text whose first token does not begin
    with p, digits, of, digits (at least one digit each).  The
    transaction parser raises [ValueError].  The account-map parser
    raises [ValueError] when the pattern matches the token with an empty
    group; when the pattern does not match, the whole text goes to the
    validator: it comes back as a whole payload if the validator accepts
    it, and the validator's exception is raised otherwise. *)
Theorem malformed_header (validate : string -> result unit)
    (raw h body : string) :
  split_space raw = [h; body] ->
  begins_with_header h = false ->
  (exists msg, _parse_specter_desktop_psbt raw = Raise (ValueError msg))
  /\ (re_match_xofy h <> None ->
      exists msg,
        _parse_specter_desktop_accountmap validate raw = Raise (ValueError msg))
  /\ (re_match_xofy h = None ->
      (validate raw = Ok tt ->
       _parse_specter_desktop_accountmap validate raw
       = Ok (QrDict None None (Some raw)))
      /\ (forall e, validate raw = Raise e ->
          _parse_specter_desktop_accountmap validate raw = Raise e)).
Proof.
  intros Hs Hb. pose proof (psbt_two_tokens raw h body Hs) as Hp.
  unfold _parse_specter_desktop_accountmap. rewrite Hs.
  unfold begins_with_header in Hb.
  destruct (re_match_xofy h) as [[g1 g2]|] eqn:E.
  - apply re_match_xofy_sound in E as (tl & _ & D1 & D2 & _).
    split; [|split].
    + rewrite Hp. apply int_groups_fail; assumption.
    + intros _. apply int_groups_fail; assumption.
    + discriminate.
  - split; [exact Hp|]. split; [congruence|].
    intros _. split.
    + intros ->. reflexivity.
    + intros e ->. reflexivity.
Qed.

Lemma malformed_header_witness :
  split_space "pXofY AAA" = ["pXofY"; "AAA"]
  /\ begins_with_header "pXofY" = false
  /\ (exists msg, _parse_specter_desktop_psbt "pXofY AAA" = Raise (ValueError msg))
  /\ (exists msg, _parse_specter_desktop_accountmap sample_validator "pXofY AAA"
                  = Raise (ValueError msg)).
Proof.
  assert (Hs : split_space "pXofY AAA" = ["pXofY"; "AAA"]) by reflexivity.
  assert (Hb : begins_with_header "pXofY" = false) by reflexivity.
  destruct (malformed_header sample_validator _ _ _ Hs Hb) as (H1 & _ & H3).
  split; [exact Hs|]. split; [exact Hb|]. split; [exact H1|].
  eexists. apply H3; reflexivity.
Defined.

(** The four headers the specification lists, in front of a body, as the
    transaction parser treats them. *)
Lemma malformed_headers_psbt (body : string) :
  has_space body = false ->
  Forall (fun h => exists msg,
            _parse_specter_desktop_psbt (h +:+ String space body)
            = Raise (ValueError msg))
         ["pXofY"; "p2of"; "2of3"; EmptyString].
Proof.
  intros Hb.
  assert (Hs : forall h, has_space h = false ->
                 split_space (h +:+ String space body) = [h; body]).
  { intros h Hh. rewrite (split_space_app h body Hh).
    rewrite (split_space_no_space body Hb). reflexivity. }
  repeat constructor.
  - exact (psbt_two_tokens _ _ _ (Hs "pXofY" eq_refl)).
  - pose proof (psbt_two_tokens _ _ _ (Hs "p2of" eq_refl)) as H.
    simpl in H. rewrite H. eexists. reflexivity.
  - exact (psbt_two_tokens _ _ _ (Hs "2of3" eq_refl)).
  - exact (psbt_two_tokens _ _ _ (Hs EmptyString eq_refl)).
Qed.

(** Without a body the same texts are single tokens, and the
    transaction parser returns them as whole payloads. *)
Lemma listed_headers_alone_psbt :
  Forall (fun h => _parse_specter_desktop_psbt h
                   = Ok (QrDict (Some 1) (Some 1) (Some h)))
         ["pXofY"; "p2of"; "2of3"; EmptyString].
Proof. repeat constructor. Qed.

(** C3 as stated fails for the account-map kind: a text of two tokens
    whose first token is no header is not rejected as a malformed
    fragment.  Here an account map is followed by a space and a name;
    its first token is the descriptor.  The whole text is handed to the
    validator, which finds the descriptor at its start, and it is
    returned as the whole payload. *)
Lemma malformed_header_counterexample :
  split_space (sample_descriptor +:+ " multisig")
  = [sample_descriptor; "multisig"]
  /\ is_header sample_descriptor = false
  /\ begins_with_header sample_descriptor = false
  /\ _parse_specter_desktop_accountmap sample_validator
       (sample_descriptor +:+ " multisig")
     = Ok (QrDict None None (Some (sample_descriptor +:+ " multisig"))).
Proof. repeat split. Qed.

(** The transaction parser takes a first token that only begins with a
    header: what follows the second digit group is not looked at. *)
Lemma psbt_header_with_trailing_text :
  is_header "p1of2x" = false
  /\ _parse_specter_desktop_psbt "p1of2x D"
     = Ok (QrDict (Some 1) (Some 2) (Some "D")).
Proof. split; reflexivity. Qed.

Lemma digits_no_space (d t : string) :
  all_digits d = true -> has_space t = false -> has_space (d +:+ t) = false.
Proof.
  induction d as [|c d IH]; intros Hd Ht; [exact Ht|].
  change (String c d +:+ t) with (String c (d +:+ t)).
  simpl in *. apply andb_true_iff in Hd as [Hc Hd].
  rewrite (IH Hd Ht).
  destruct (Ascii.eqb c space) eqn:E; [|reflexivity].
  apply Ascii.eqb_eq in E. subst c. discriminate.
Qed.

Lemma header_no_space (d1 d2 : string) :
  all_digits d1 = true -> all_digits d2 = true ->
  has_space ("p" +:+ d1 +:+ "of" +:+ d2) = false.
Proof.
  intros D1 D2.
  change (has_space (String "p" (d1 +:+ String "o" (String "f" d2))) = false).
  simpl. apply digits_no_space; [exact D1|]. simpl.
  rewrite <- (app_empty_r d2). apply digits_no_space; [exact D2|reflexivity].
Qed.

(** The text the account-map parser returns is the text after the first
    space, whatever spaces it has. *)
Lemma accountmap_text_after_header (validate : string -> result unit)
    (d1 d2 body : string) :
  nonempty d1 = true -> all_digits d1 = true -> within_digit_limit d1 = true ->
  nonempty d2 = true -> all_digits d2 = true -> within_digit_limit d2 = true ->
  _parse_specter_desktop_accountmap validate
    (("p" +:+ d1 +:+ "of" +:+ d2) +:+ String space body)
  = Ok (QrDict (Some (int_of_digits 0 d1)) (Some (int_of_digits 0 d2))
          (Some body)).
Proof.
  intros N1 D1 L1 N2 D2 L2.
  destruct (join_rest_after_first_space _ body (header_no_space d1 d2 D1 D2))
    as (rest & Hs & Hj).
  rewrite (accountmap_header_tokens validate _ d1 d2 rest N1 D1 L1 N2 D2 L2 Hs),
    Hj.
  reflexivity.
Qed.



(** ** The slot array *)

Lemma py_index_lt {A : Type} (l : list A) (i : Z) (k : nat) :
  py_index l i = Some k -> (k < length l)%nat.
Proof.
  unfold py_index.
  destruct ((0 <=? i) && (i <? Z.of_nat (length l))) eqn:E1.
  - intros [= <-]. apply andb_true_iff in E1 as [H1 H2]. lia.
  - destruct ((- Z.of_nat (length l) <=? i) && (i <? 0)) eqn:E2; [|discriminate].
    intros [= <-]. apply andb_true_iff in E2 as [H1 H2]. lia.
Qed.

Lemma py_getitem_Ok {A : Type} (l : list A) (i : Z) (v : A) :
  py_getitem l i = Ok v ->
  exists k, py_index l i = Some k /\ l !! k = Some v.
Proof.
  unfold py_getitem. destruct (py_index l i) as [k|]; [|discriminate].
  destruct (l !! k) as [w|] eqn:E; [|discriminate].
  intros [= <-]. exists k. auto.
Qed.

Lemma py_getitem_not_nil {A : Type} (l : list A) (i : Z) (v : A) :
  py_getitem l i = Ok v -> l <> [].
Proof.
  intros H ->. apply py_getitem_Ok in H as (k & _ & H). discriminate.
Qed.

Lemma py_setitem_length {A : Type} (l l' : list A) (i : Z) (v : A) :
  py_setitem l i v = Ok l' -> length l' = length l.
Proof.
  unfold py_setitem. destruct (py_index l i); [|discriminate].
  intros [= <-]. apply length_insert.
Qed.

(** Writing to a slot that can be read never fails. *)
Lemma py_setitem_after_getitem {A : Type} (l : list A) (i : Z) (v w : A) :
  py_getitem l i = Ok v -> exists k, py_index l i = Some k /\ py_setitem l i w = Ok (<[k := w]> l).
Proof.
  intros H. apply py_getitem_Ok in H as (k & Hk & _). exists k.
  unfold py_setitem. rewrite Hk. auto.
Qed.

Lemma none_not_in_false (qrs : list (option string)) :
  none_not_in qrs = false <-> None ∈ qrs.
Proof.
  unfold none_not_in. induction qrs as [|[s|] qrs IH]; simpl.
  - split; [discriminate|]. intros H. inversion H.
  - rewrite IH. split.
    + intros H. right. exact H.
    + intros H. inversion H; subst. assumption.
  - split; [|reflexivity]. intros _. left.
Qed.

Lemma first_none_None (k : nat) (qrs : list (option string)) :
  first_none k qrs = None <-> none_not_in qrs = true.
Proof.
  unfold none_not_in. revert k. induction qrs as [|[s|] qrs IH]; intros k; simpl.
  - split; reflexivity.
  - apply IH.
  - split; discriminate.
Qed.

(** The join after the loop returns a text exactly when no slot is
    empty; with an empty slot it raises [TypeError]. *)
Lemma join_slots_full (sep : string) (qrs : list (option string)) :
  none_not_in qrs = true -> join_slots sep qrs = Ok (join sep (omap id qrs)).
Proof.
  intros H. unfold join_slots.
  destruct (first_none 0 qrs) eqn:E; [|reflexivity].
  apply (first_none_None 0) in H. rewrite H in E. discriminate.
Qed.

Lemma join_slots_partial (sep : string) (qrs : list (option string)) :
  none_not_in qrs = false ->
  exists msg, join_slots sep qrs = Raise (TypeError msg).
Proof.
  intros H. unfold join_slots.
  destruct (first_none 0 qrs) eqn:E.
  - eexists. reflexivity.
  - apply first_none_None in E. congruence.
Qed.

(** ** One scanned dict *)

(** What [absorb] does with a fragment of several once the slot array
    exists. *)
Lemma absorb_multi (qrs : list (option string)) (x y : Z) (v : string) :
  y <> 1 -> qrs <> [] ->
  absorb qrs (QrDict (Some x) (Some y) (Some v)) =
  let scanned := Print (MsgScannedOf (num_scanned qrs) (length qrs)) in
  match py_getitem qrs (x - 1) with
  | Raise e => ([scanned], Raise e)
  | Ok (Some _) =>
      ([scanned; Print (MsgAlreadyScanned x)],
       Ok (if none_not_in qrs then Break else Continue, qrs))
  | Ok None =>
      match py_setitem qrs (x - 1) (Some v) with
      | Raise e => ([scanned; Print MsgAdding], Raise e)
      | Ok qrs' =>
          ([scanned; Print MsgAdding],
           Ok (if none_not_in qrs' then Break else Continue, qrs'))
      end
  end.
Proof.
  intros Hy Hq.
  assert (Hm : forall (B : Type) (a b : B),
             match qrs with [] => a | _ :: _ => b end = b)
    by (intros; destruct qrs; [contradiction|reflexivity]).
  unfold absorb. cbn.
  rewrite (proj2 (Z.eqb_neq y 1) Hy), Hm. cbn.
  destruct (py_getitem qrs (x - 1)) as [[s|]|e]; cbn.
  - destruct (none_not_in qrs); reflexivity.
  - destruct (py_setitem qrs (x - 1) (Some v)) as [qrs'|e]; cbn; [|reflexivity].
    destruct (none_not_in qrs'); reflexivity.
  - reflexivity.
Qed.

(** Every way [absorb] can end without an exception. *)
Lemma absorb_cases (qrs qrs' : list (option string)) (d : qr_dict)
    (tr : list effect) (c : control) :
  absorb qrs d = (tr, Ok (c, qrs')) ->
  (default 1 (y_int d) = 1 /\ qrs' = qrs
   /\ exists v, payload d = Some v /\ c = Return v)
  \/ (exists x y slot,
        y_int d = Some y /\ y <> 1 /\ x_int d = Some x
        /\ py_getitem (allocated qrs y) (x - 1) = Ok slot
        /\ match slot with
           | Some _ => qrs' = allocated qrs y
           | None => exists v, payload d = Some v
                               /\ py_setitem (allocated qrs y) (x - 1) (Some v) = Ok qrs'
           end
        /\ c = if none_not_in qrs' then Break else Continue).
Proof.
  unfold absorb. destruct d as [dx dy dp]. cbn [x_int y_int payload].
  destruct (Z.eqb_spec (default 1 dy) 1) as [Hy|Hy].
  - destruct dp as [v|]; cbn; [|discriminate].
    intros [= <- <- <-]. left. eauto.
  - destruct dy as [y|]; [|contradiction]. cbn in Hy.
    intros H. right.
    assert (Ha : (match qrs with
                  | [] => bind (getitem "y_int" (Some y))
                            (fun y0 => ret (replicate (Z.to_nat y0) None))
                  | _ :: _ => ret qrs
                  end) = ret (allocated qrs y)) by (destruct qrs; reflexivity).
    rewrite Ha in H. clear Ha. cbn in H.
    destruct dx as [x|]; cbn in H; [|discriminate].
    destruct (py_getitem (allocated qrs y) (x - 1)) as [slot|e] eqn:Eg;
      cbn in H; [|discriminate].
    exists x, y, slot. repeat (split; [first [reflexivity | assumption]|]).
    destruct slot as [s|]; cbn in H.
    + destruct (none_not_in (allocated qrs y)) eqn:En; cbn in H;
        inversion H; subst; rewrite En; auto.
    + destruct dp as [v|]; cbn in H; [|discriminate].
      destruct (py_setitem (allocated qrs y) (x - 1) (Some v)) as [q|e] eqn:Es;
        cbn in H; [|discriminate].
      destruct (none_not_in q) eqn:En; cbn in H; inversion H; subst;
        rewrite En; eauto.
Qed.

Lemma absorb_not_nil (qrs qrs' : list (option string)) (d : qr_dict)
    (tr : list effect) (c : control) :
  absorb qrs d = (tr, Ok (c, qrs')) ->
  (forall v, c <> Return v) -> qrs' <> [].
Proof.
  intros H Hc. apply absorb_cases in H as [(_ & _ & v & _ & ->)|H].
  - exfalso. exact (Hc v eq_refl).
  - destruct H as (x & y & slot & _ & _ & _ & Hg & Hs & _).
    pose proof (py_getitem_not_nil _ _ _ Hg) as Hn.
    destruct slot as [s|].
    + subst qrs'. exact Hn.
    + destruct Hs as (v & _ & Hs). apply py_setitem_length in Hs.
      intros ->. destruct (allocated qrs y); [contradiction|discriminate].
Qed.

(** [absorb] leaves the loop by [break] only with every slot filled. *)
Lemma absorb_break (qrs qrs' : list (option string)) (d : qr_dict)
    (tr : list effect) :
  absorb qrs d = (tr, Ok (Break, qrs')) ->
  qrs' <> [] /\ none_not_in qrs' = true.
Proof.
  intros H. split.
  - apply (absorb_not_nil _ _ _ _ _ H). discriminate.
  - apply absorb_cases in H as [(_ & _ & v & _ & Hc)|H]; [discriminate|].
    destruct H as (x & y & slot & _ & _ & _ & _ & _ & Hc).
    destruct (none_not_in qrs'); [reflexivity|discriminate].
Qed.

(** [absorb] goes on with the loop only with some slot empty. *)
Lemma absorb_continue (qrs qrs' : list (option string)) (d : qr_dict)
    (tr : list effect) :
  absorb qrs d = (tr, Ok (Continue, qrs')) ->
  qrs' <> [] /\ none_not_in qrs' = false.
Proof.
  intros H. split.
  - apply (absorb_not_nil _ _ _ _ _ H). discriminate.
  - apply absorb_cases in H as [(_ & _ & v & _ & Hc)|H]; [discriminate|].
    destruct H as (x & y & slot & _ & _ & _ & _ & _ & Hc).
    destruct (none_not_in qrs'); [discriminate|reflexivity].
Qed.

(** Once allocated, the slot array keeps its length. *)
Lemma absorb_length (qrs qrs' : list (option string)) (d : qr_dict)
    (tr : list effect) (c : control) :
  qrs <> [] ->
  absorb qrs d = (tr, Ok (c, qrs')) -> length qrs' = length qrs.
Proof.
  intros Hq H. apply absorb_cases in H as [(_ & -> & _)|H]; [reflexivity|].
  destruct H as (x & y & slot & _ & _ & _ & _ & Hs & _).
  assert (Ha : allocated qrs y = qrs) by (destruct qrs; [contradiction|reflexivity]).
  rewrite Ha in Hs. destruct slot as [s|].
  - subst. reflexivity.
  - destruct Hs as (v & _ & Hs). exact (py_setitem_length _ _ _ _ Hs).
Qed.

(** ** The loop *)

Lemma snd_bind {A B : Type} (m : M A) (f : A -> M B) :
  snd (bind m f) = match snd m with
                   | Ok a => snd (f a)
                   | Raise e => Raise e
                   end.
Proof.
  destruct m as [tr [a|e]]; simpl; [|reflexivity].
  destruct (f a). reflexivity.
Qed.

Lemma fst_bind {A B : Type} (m : M A) (f : A -> M B) :
  fst (bind m f) = match snd m with
                   | Ok a => fst m ++ fst (f a)
                   | Raise e => fst m
                   end.
Proof.
  destruct m as [tr [a|e]]; simpl; [|reflexivity].
  destruct (f a). reflexivity.
Qed.

Lemma bind_Ok {A B : Type} (m : M A) (f : A -> M B) (tr : list effect) (b : B) :
  bind m f = (tr, Ok b) ->
  exists tr1 a tr2, m = (tr1, Ok a) /\ f a = (tr2, Ok b) /\ tr = tr1 ++ tr2.
Proof.
  destruct m as [tr1 [a|e]]; simpl; [|discriminate].
  destruct (f a) as [tr2 r] eqn:E. intros [= <- ->].
  exists tr1, a, tr2. auto.
Qed.

Section Loop.

Variable validate : string -> result unit.
Variable qrtype : string.

(** A turn that sees the escape key leaves the loop and keeps the
    slots. *)
Lemma iteration_esc (qrs : list (option string)) (t : tick) :
  esc_pressed t = true ->
  iteration validate qrtype qrs t = ([ImShow], Ok (Break, qrs)).
Proof. intros H. unfold iteration. cbn. rewrite H. reflexivity. Qed.

(** A turn that scans a dict hands it to [absorb]. *)
Lemma iteration_dict (qrs : list (option string)) (t : tick) (d : qr_dict) :
  esc_pressed t = false ->
  snd (read_single_qr validate (frame t) qrtype) = Ok d ->
  dict_bool d = true ->
  snd (iteration validate qrtype qrs t) = snd (absorb qrs d).
Proof.
  intros He Hr Hd. unfold iteration. cbn. rewrite He. cbn.
  destruct (read_single_qr validate (frame t) qrtype) as [tr [d'|e]];
    cbn in Hr; [|discriminate].
  injection Hr as ->. rewrite Hd. cbn.
  destruct (absorb qrs d) as [tr' r]. reflexivity.
Qed.

(** Every way a turn without the escape key can end. *)
Lemma iteration_cases (qrs qrs' : list (option string)) (t : tick)
    (tr : list effect) (c : control) :
  esc_pressed t = false ->
  iteration validate qrtype qrs t = (tr, Ok (c, qrs')) ->
  (c = Continue /\ qrs' = qrs)
  \/ exists d tr',
       snd (read_single_qr validate (frame t) qrtype) = Ok d
       /\ dict_bool d = true
       /\ absorb qrs d = (tr', Ok (c, qrs')).
Proof.
  intros He. unfold iteration. cbn. rewrite He. cbn.
  destruct (read_single_qr validate (frame t) qrtype) as [tr0 [d|e]].
  - cbn. destruct (dict_bool d) eqn:Ed; cbn.
    + destruct (absorb qrs d) as [tr' r] eqn:Ea. intros [= <- ->].
      right. exists d, tr'. auto.
    + intros [= <- <- <-]. left. auto.
  - destruct e; try discriminate.
    intros [= <- <- <-]. left. auto.
Qed.

Lemma scan_loop_cons (qrs : list (option string)) (t : tick) (ticks : list tick) :
  snd (scan_loop validate qrtype qrs (t :: ticks))
  = match snd (iteration validate qrtype qrs t) with
    | Ok (Continue, qrs') => snd (scan_loop validate qrtype qrs' ticks)
    | Ok (Break, qrs') => Ok (Left, qrs')
    | Ok (Return v, qrs') => Ok (Returned v, qrs')
    | Raise e => Raise e
    end.
Proof.
  cbn [scan_loop]. rewrite snd_bind.
  destruct (snd (iteration validate qrtype qrs t)) as [[[| |v] qrs']|e];
    reflexivity.
Qed.

(** The loop goes on from where it stands when more turns follow. *)
Lemma scan_loop_app (qrs qrs' : list (option string)) (ticks more : list tick)
    (tr : list effect) :
  scan_loop validate qrtype qrs ticks = (tr, Ok (Running, qrs')) ->
  scan_loop validate qrtype qrs (ticks ++ more)
  = bind (tr, Ok tt) (fun _ => scan_loop validate qrtype qrs' more).
Proof.
  revert qrs tr. induction ticks as [|t ticks IH]; intros qrs tr H.
  - cbn in H. injection H as <- <-. cbn.
    destruct (scan_loop validate qrtype qrs more). reflexivity.
  - cbn [scan_loop app] in *.
    apply bind_Ok in H as (tr1 & [c q] & tr2 & Hi & Hk & ->).
    rewrite Hi. destruct c as [| |v]; [|discriminate..].
    cbn [bind]. rewrite (IH q tr2 Hk). cbn [bind].
    destruct (scan_loop validate qrtype qrs' more) as [tr3 r].
    rewrite app_assoc. reflexivity.
Qed.

(** The loop waits for a next frame only with no slot array yet or with
    some slot empty. *)
Lemma scan_loop_running (qrs qrs' : list (option string)) (ticks : list tick)
    (tr : list effect) :
  qrs = [] \/ none_not_in qrs = false ->
  scan_loop validate qrtype qrs ticks = (tr, Ok (Running, qrs')) ->
  qrs' = [] \/ none_not_in qrs' = false.
Proof.
  revert qrs tr. induction ticks as [|t ticks IH]; intros qrs tr Hq H.
  - cbn in H. injection H as <- <-. exact Hq.
  - cbn [scan_loop] in H.
    apply bind_Ok in H as (tr1 & [c q] & tr2 & Hi & Hk & ->).
    destruct c as [| |v]; [|discriminate..].
    apply (IH q tr2); [|exact Hk].
    destruct (esc_pressed t) eqn:Ht;
      [rewrite (iteration_esc _ _ Ht) in Hi; discriminate|].
    apply (iteration_cases _ _ _ _ _ Ht) in Hi as [[_ ->]|(d & tr' & _ & _ & Ha)].
    + exact Hq.
    + right. apply (absorb_continue _ _ _ _ Ha).
Qed.

(** A [break] that is not the escape key comes with every slot filled. *)
Lemma scan_loop_left (qrs qrs' : list (option string)) (ticks : list tick)
    (tr : list effect) :
  forallb (fun t => negb (esc_pressed t)) ticks = true ->
  scan_loop validate qrtype qrs ticks = (tr, Ok (Left, qrs')) ->
  qrs' <> [] /\ none_not_in qrs' = true.
Proof.
  revert qrs tr. induction ticks as [|t ticks IH]; intros qrs tr He H.
  - discriminate.
  - cbn [forallb] in He. apply andb_true_iff in He as [Ht He].
    apply negb_true_iff in Ht.
    cbn [scan_loop] in H.
    apply bind_Ok in H as (tr1 & [c q] & tr2 & Hi & Hk & ->).
    destruct c as [| |v].
    + exact (IH q tr2 He Hk).
    + injection Hk as <- <-.
      apply (iteration_cases _ _ _ _ _ Ht) in Hi as [[Hc _]|(d & tr' & _ & _ & Ha)];
        [discriminate|].
      exact (absorb_break _ _ _ _ Ha).
    + discriminate.
Qed.

End Loop.

(** ** Camera releases in a trace *)

Lemma releases_app (tr1 tr2 : list effect) :
  releases (tr1 ++ tr2) = (releases tr1 + releases tr2)%nat.
Proof. unfold releases. rewrite List.filter_app, length_app. reflexivity. Qed.

Lemma quiet_bind {A B : Type} (m : M A) (f : A -> M B) :
  quiet m -> (forall a, quiet (f a)) -> quiet (bind m f).
Proof.
  unfold quiet. intros Hm Hf. rewrite fst_bind.
  destruct (snd m) as [a|e]; [|exact Hm].
  rewrite releases_app, Hm, (Hf a). reflexivity.
Qed.

Lemma quiet_ret {A : Type} (a : A) : quiet (ret a).
Proof. reflexivity. Qed.

Lemma quiet_raise {A : Type} (e : exn) : quiet (@raise A e).
Proof. reflexivity. Qed.

Lemma quiet_lift {A : Type} (r : result A) : quiet (lift r).
Proof. reflexivity. Qed.

Lemma quiet_print (m : message) : quiet (emit (Print m)).
Proof. reflexivity. Qed.

Lemma quiet_getitem {A : Type} (k : string) (field : option A) :
  quiet (getitem k field).
Proof. destruct field; reflexivity. Qed.

Create HintDb quiet.
#[local] Hint Resolve quiet_ret quiet_raise quiet_lift quiet_print
  quiet_getitem : quiet.

Ltac quiet_step :=
  match goal with
  | |- quiet (bind _ _) => apply quiet_bind; [|intros ?]
  | |- quiet (if ?b then _ else _) => destruct b
  | |- quiet (match ?x with _ => _ end) => destruct x
  | |- quiet _ => solve [auto with quiet | reflexivity]
  end.

Lemma quiet_absorb (qrs : list (option string)) (d : qr_dict) :
  quiet (absorb qrs d).
Proof. unfold absorb. repeat quiet_step. Qed.

Lemma quiet_read_single_qr (validate : string -> result unit)
    (fr : list string) (qrtype : string) :
  quiet (read_single_qr validate fr qrtype).
Proof. unfold read_single_qr. repeat quiet_step. Qed.

Lemma quiet_iteration (validate : string -> result unit) (qrtype : string)
    (qrs : list (option string)) (t : tick) :
  quiet (iteration validate qrtype qrs t).
Proof.
  unfold iteration. apply quiet_bind; [reflexivity|intros _].
  destruct (esc_pressed t); [reflexivity|].
  apply quiet_bind; [reflexivity|intros _].
  pose proof (quiet_read_single_qr validate (frame t) qrtype) as Hq.
  destruct (read_single_qr validate (frame t) qrtype) as [tr [d|e]].
  - apply quiet_bind; [exact Hq|intros _].
    destruct (negb (dict_bool d)); [reflexivity|apply quiet_absorb].
  - unfold quiet in *. cbn [fst] in *.
    destruct e; try exact Hq.
    cbn [fst]. rewrite releases_app, Hq. reflexivity.
Qed.

Lemma quiet_scan_loop (validate : string -> result unit) (qrtype : string)
    (qrs : list (option string)) (ticks : list tick) :
  quiet (scan_loop validate qrtype qrs ticks).
Proof.
  revert qrs. induction ticks as [|t ticks IH]; intros qrs; [reflexivity|].
  cbn [scan_loop]. apply quiet_bind; [apply quiet_iteration|].
  intros [[| |v] q]; [apply IH|reflexivity|reflexivity].
Qed.

(** ** The session *)

(** C4.  Take any state the scanning loop can stand in while it waits
    for a frame.  A fragment of several whose slot is filled already is
    reported as scanned before and ignored: the slot array is the same
    afterwards, stored text included, and the loop goes on without
    completing. *)
Theorem duplicate_fragment (validate : string -> result unit) (qrtype : string)
    (ticks : list tick) (tr : list effect) (qrs : list (option string))
    (x y : Z) (v s : string) :
  scan_loop validate qrtype [] ticks = (tr, Ok (Running, qrs)) ->
  y <> 1 ->
  py_getitem qrs (x - 1) = Ok (Some s) ->
  absorb qrs (fragment x y v)
  = ([Print (MsgScannedOf (num_scanned qrs) (length qrs));
      Print (MsgAlreadyScanned x)],
     Ok (Continue, qrs)).
Proof.
  intros Hl Hy Hg.
  pose proof (py_getitem_not_nil _ _ _ Hg) as Hq.
  destruct (scan_loop_running _ _ _ _ _ _ (or_introl eq_refl) Hl) as [Hn|Hn];
    [contradiction|].
  unfold fragment. rewrite (absorb_multi qrs x y v Hy Hq).
  cbn zeta. rewrite Hg, Hn. reflexivity.
Qed.

Lemma duplicate_fragment_witness :
  absorb [Some "A"; None; None] (fragment 1 3 "A")
  = ([Print (MsgScannedOf 1 3); Print (MsgAlreadyScanned 1)],
     Ok (Continue, [Some "A"; None; None])).
Proof.
  eapply (duplicate_fragment sample_validator "psbt"
            [Tick (-1) ["p1of3 A"]] _ [Some "A"; None; None] 1 3 "A" "A").
  - reflexivity.
  - lia.
  - reflexivity.
Defined.

(** The same holds in any state with an empty slot, reached or not. *)
Lemma duplicate_fragment_open (qrs : list (option string)) (x y : Z)
    (v s : string) :
  y <> 1 ->
  none_not_in qrs = false ->
  py_getitem qrs (x - 1) = Ok (Some s) ->
  absorb qrs (fragment x y v)
  = ([Print (MsgScannedOf (num_scanned qrs) (length qrs));
      Print (MsgAlreadyScanned x)],
     Ok (Continue, qrs)).
Proof.
  intros Hy Hn Hg. unfold fragment.
  rewrite (absorb_multi qrs x y v Hy (py_getitem_not_nil _ _ _ Hg)).
  cbn zeta. rewrite Hg, Hn. reflexivity.
Qed.

(** C5, amended.  The part count of a fragment is not compared with the
    length of the slot array.  Once the array exists, a fragment of
    several with a part index from 1 to the number of slots is absorbed
    by its part index alone, whatever part count it carries: if its
    slot is empty the text is written into it, and the loop ends when
    that fills the last empty slot and goes on otherwise; if its slot
    is filled it is reported as scanned before and the slots stay as
    they are.  The array keeps its length either way. *)
Theorem part_count_not_compared (qrs : list (option string))
    (x y : Z) (v : string) :
  qrs <> [] -> y <> 1 -> 1 <= x <= Z.of_nat (length qrs) ->
  match qrs !! Z.to_nat (x - 1) with
  | Some None =>
      absorb qrs (fragment x y v)
      = ([Print (MsgScannedOf (num_scanned qrs) (length qrs)); Print MsgAdding],
         Ok (if none_not_in (<[Z.to_nat (x - 1) := Some v]> qrs)
             then Break else Continue,
             <[Z.to_nat (x - 1) := Some v]> qrs))
      /\ length (<[Z.to_nat (x - 1) := Some v]> qrs) = length qrs
  | Some (Some _) =>
      absorb qrs (fragment x y v)
      = ([Print (MsgScannedOf (num_scanned qrs) (length qrs));
          Print (MsgAlreadyScanned x)],
         Ok (if none_not_in qrs then Break else Continue, qrs))
  | None => False
  end.
Proof.
  intros Hq Hy Hx. unfold fragment.
  rewrite (absorb_multi qrs x y v Hy Hq). cbn zeta.
  assert (Hi : py_index qrs (x - 1) = Some (Z.to_nat (x - 1))).
  { unfold py_index.
    replace ((0 <=? x - 1) && (x - 1 <? Z.of_nat (length qrs))) with true;
      [reflexivity|].
    symmetry. apply andb_true_iff. split; [apply Z.leb_le|apply Z.ltb_lt]; lia. }
  unfold py_getitem, py_setitem. rewrite Hi.
  destruct (qrs !! Z.to_nat (x - 1)) as [[s|]|] eqn:El.
  - reflexivity.
  - split; [reflexivity|apply length_insert].
  - apply lookup_ge_None in El. lia.
Qed.

Lemma part_count_not_compared_witness :
  absorb [Some "A"; None; None] (fragment 3 7 "X")
  = ([Print (MsgScannedOf 1 3); Print MsgAdding],
     Ok (Continue, [Some "A"; None; Some "X"])).
Proof.
  refine (proj1 (part_count_not_compared [Some "A"; None; None] 3 7 "X" _ _ _)).
  - discriminate.
  - lia.
  - cbn. lia.
Defined.

(** C5 as stated fails: in a session of three slots, a fragment that
    says it is part 2 of 5 is not ignored; its text goes into slot 2. *)
Lemma part_count_mismatch_counterexample :
  absorb [Some "A"; None; None] (QrDict (Some 2) (Some 5) (Some "Z"))
  = ([Print (MsgScannedOf 1 3); Print MsgAdding],
     Ok (Continue, [Some "A"; Some "Z"; None])).
Proof. reflexivity. Qed.

(** A part index beyond the array raises [IndexError], which nothing in
    [read_qr_code] catches. *)
Lemma part_index_out_of_range :
  absorb [Some "A"; None; None] (QrDict (Some 5) (Some 5) (Some "Z"))
  = ([Print (MsgScannedOf 1 3)], Raise (IndexError "list index out of range")).
Proof. reflexivity. Qed.

(** C10.  The text p0of3 X parses, for either kind, to part index 0 of
    part count 3; absorbing it, into a new session or into one with
    three empty slots, writes X into the last slot (position -1) and
    raises nothing. *)
Theorem part_index_zero (validate : string -> result unit) :
  _parse_specter_desktop_psbt "p0of3 X" = Ok (QrDict (Some 0) (Some 3) (Some "X"))
  /\ _parse_specter_desktop_accountmap validate "p0of3 X"
     = Ok (QrDict (Some 0) (Some 3) (Some "X"))
  /\ absorb [] (QrDict (Some 0) (Some 3) (Some "X"))
     = ([Print (MsgScannedOf 0 3); Print MsgAdding],
        Ok (Continue, [None; None; Some "X"]))
  /\ absorb [None; None; None] (QrDict (Some 0) (Some 3) (Some "X"))
     = ([Print (MsgScannedOf 0 3); Print MsgAdding],
        Ok (Continue, [None; None; Some "X"])).
Proof. repeat split. Qed.

Section LoopClaims.

Variable validate : string -> result unit.
Variable qrtype : string.

Lemma scan_loop_returned (qrs qrs' : list (option string)) (ticks : list tick)
    (tr : list effect) (v : string) :
  forallb (fun t => negb (esc_pressed t)) ticks = true ->
  scan_loop validate qrtype qrs ticks = (tr, Ok (Returned v, qrs')) ->
  exists t, t ∈ ticks /\ carries_whole_payload validate qrtype t = true.
Proof.
  revert qrs tr. induction ticks as [|t ticks IH]; intros qrs tr He H.
  - discriminate.
  - cbn [forallb] in He. apply andb_true_iff in He as [Ht He].
    apply negb_true_iff in Ht.
    cbn [scan_loop] in H.
    apply bind_Ok in H as (tr1 & [c q] & tr2 & Hi & Hk & ->).
    destruct c as [| |w].
    + destruct (IH q tr2 He Hk) as (t' & Hin & Hw).
      exists t'. split; [right; exact Hin|exact Hw].
    + discriminate.
    + exists t. split; [left|].
      apply (iteration_cases _ _ _ _ _ _ _ Ht) in Hi
        as [[Hc _]|(d & tr' & Hr & Hd & Ha)]; [discriminate|].
      apply absorb_cases in Ha as [(Hy & _)|Ha].
      * unfold carries_whole_payload. rewrite Hr, Hd, Hy. reflexivity.
      * destruct Ha as (x & y & slot & _ & _ & _ & _ & _ & Hc).
        destruct (none_not_in q); discriminate.
Qed.

(** C6.  Without the escape key, as long as the session has an empty
    slot (or no slot array yet) the loop has not left by [break], so no
    assembled payload is returned; and if no frame carried a whole
    payload either, the loop has not returned at all: it is still
    scanning. *)
Theorem no_completion_before_full (qrs qrs' : list (option string))
    (ticks : list tick) (tr : list effect) (ex : loop_exit) :
  forallb (fun t => negb (esc_pressed t)) ticks = true ->
  scan_loop validate qrtype qrs ticks = (tr, Ok (ex, qrs')) ->
  qrs' = [] \/ none_not_in qrs' = false ->
  ex <> Left
  /\ (forallb (fun t => negb (carries_whole_payload validate qrtype t)) ticks = true ->
      ex = Running).
Proof.
  intros He H Hq.
  assert (Hl : ex <> Left).
  { intros ->. destruct (scan_loop_left _ _ _ _ _ _ He H) as [Hn Hf].
    destruct Hq as [Hq|Hq]; congruence. }
  split; [exact Hl|].
  intros Hw. destruct ex as [| |v]; [reflexivity|contradiction|].
  destruct (scan_loop_returned _ _ _ _ _ He H) as (t & Hin & Ht).
  rewrite forallb_forall in Hw.
  apply list_elem_of_In in Hin. specialize (Hw t Hin).
  rewrite Ht in Hw. discriminate.
Qed.

End LoopClaims.

(** ** The whole function *)

Section Function.

Variable validate : string -> result unit.
Variable qrtype : string.
Hypothesis qrtype_valid : valid_qrtype qrtype = true.

Lemma read_qr_code_result (ticks : list tick) (tr : list effect)
    (ex : loop_exit) (qrs : list (option string)) :
  scan_loop validate qrtype [] ticks = (tr, Ok (ex, qrs)) ->
  read_qr_code validate qrtype ticks
  = match ex with
    | Running => (prologue ++ tr, Ok StillScanning)
    | Returned v => (prologue ++ tr, Ok (Result v))
    | Left =>
        (prologue ++ tr ++ epilogue,
         match join_slots EmptyString qrs with
         | Ok v => Ok (Result v)
         | Raise e => Raise e
         end)
    end.
Proof.
  intros H. unfold read_qr_code. rewrite qrtype_valid, H. cbn.
  destruct ex as [| |v]; cbn.
  - rewrite app_nil_r. reflexivity.
  - destruct (join_slots EmptyString qrs); cbn; reflexivity.
  - rewrite app_nil_r. reflexivity.
Qed.

Lemma read_qr_code_raise (ticks : list tick) (tr : list effect) (e : exn) :
  scan_loop validate qrtype [] ticks = (tr, Raise e) ->
  read_qr_code validate qrtype ticks = (prologue ++ tr, Raise e).
Proof.
  intros H. unfold read_qr_code. rewrite qrtype_valid, H. reflexivity.
Qed.

(** C8 fails on the code; this is what the code does.  The camera is
    released once when the loop is left by [break], and not at all when
    the function returns from inside the loop (a whole payload in one
    frame), or when an exception leaves the loop. *)
Theorem release_only_after_break (ticks : list tick) :
  releases (fst (read_qr_code validate qrtype ticks))
  = match snd (scan_loop validate qrtype [] ticks) with
    | Ok (Left, _) => 1%nat
    | _ => 0%nat
    end.
Proof.
  pose proof (quiet_scan_loop validate qrtype [] ticks) as Hq.
  unfold quiet in Hq.
  destruct (scan_loop validate qrtype [] ticks) as [tr [[ex qrs]|e]] eqn:E.
  - rewrite (read_qr_code_result _ _ _ _ E). cbn [fst snd] in *.
    destruct ex; cbn [fst]; rewrite ?releases_app, Hq; reflexivity.
  - rewrite (read_qr_code_raise _ _ _ E). cbn [fst snd] in *.
    rewrite releases_app, Hq. reflexivity.
Qed.

(** C7 fails on the code; this is what the code does.  When the escape
    key comes while the loop is scanning, the camera is released once;
    with no slot array yet the function returns the empty text, and with
    a slot array (it always has an empty slot then) the join raises
    [TypeError]. *)
Theorem cancel_raises_with_slots (ticks : list tick) (t : tick)
    (tr : list effect) (qrs : list (option string)) :
  scan_loop validate qrtype [] ticks = (tr, Ok (Running, qrs)) ->
  esc_pressed t = true ->
  releases (fst (read_qr_code validate qrtype (ticks ++ [t]))) = 1%nat
  /\ (qrs = [] ->
      snd (read_qr_code validate qrtype (ticks ++ [t])) = Ok (Result EmptyString))
  /\ (qrs <> [] ->
      exists msg,
        snd (read_qr_code validate qrtype (ticks ++ [t])) = Raise (TypeError msg)).
Proof.
  intros H He.
  assert (Hl : scan_loop validate qrtype [] (ticks ++ [t])
               = (tr ++ [ImShow], Ok (Left, qrs))).
  { rewrite (scan_loop_app _ _ _ _ _ [t] _ H). cbn [scan_loop].
    rewrite (iteration_esc _ _ _ _ He). reflexivity. }
  rewrite (read_qr_code_result _ _ _ _ Hl). cbn [fst snd].
  pose proof (quiet_scan_loop validate qrtype [] (ticks ++ [t])) as Hq.
  unfold quiet in Hq. rewrite Hl in Hq. cbn [fst] in Hq.
  split; [|split].
  - rewrite releases_app, releases_app, Hq. reflexivity.
  - intros ->. reflexivity.
  - intros Hn.
    destruct (scan_loop_running _ _ _ _ _ _ (or_introl eq_refl) H) as [Hq'|Hq'];
      [contradiction|].
    destruct (join_slots_partial EmptyString qrs Hq') as [msg ->].
    exists msg. reflexivity.
Qed.

End Function.

Lemma snd_read_qr_code (validate : string -> result unit) (qrtype : string)
    (ticks : list tick) :
  valid_qrtype qrtype = true ->
  snd (read_qr_code validate qrtype ticks)
  = match snd (scan_loop validate qrtype [] ticks) with
    | Ok (Running, _) => Ok StillScanning
    | Ok (Returned v, _) => Ok (Result v)
    | Ok (Left, qrs) =>
        match join_slots EmptyString qrs with
        | Ok v => Ok (Result v)
        | Raise e => Raise e
        end
    | Raise e => Raise e
    end.
Proof.
  intros Hv.
  destruct (scan_loop validate qrtype [] ticks) as [tr [[ex qrs]|e]] eqn:E.
  - rewrite (read_qr_code_result _ _ Hv _ _ _ _ E). destruct ex; reflexivity.
  - rewrite (read_qr_code_raise _ _ Hv _ _ _ E). reflexivity.
Qed.

(** The six orders of three fragments. *)
Lemma three_orders {A : Type} (d1 d2 d3 : A) (ds : list A) :
  ds ≡ₚ [d1; d2; d3] ->
  ds ∈ [[d1; d2; d3]; [d2; d1; d3]; [d2; d3; d1];
        [d1; d3; d2]; [d3; d1; d2]; [d3; d2; d1]].
Proof.
  intros H. symmetry in H. apply permutations_Permutation in H. exact H.
Qed.

Ltac eval_absorb :=
  match goal with
  | |- context [snd (absorb ?q ?d)] =>
      let r := eval vm_compute in (snd (absorb q d)) in
      change (snd (absorb q d)) with r; cbv beta iota
  end.

(** C1.  Three frames that carry part 1 with text a, part 2 with text b
    and part 3 with text c of a payload in three parts, arriving in any
    order, make [read_qr_code] return the texts joined in the order of
    the part indices, a then b then c, with nothing between them. *)
Theorem any_arrival_order (validate : string -> result unit) (qrtype : string)
    (ticks : list tick) (ds : list qr_dict) (a b c : string) :
  valid_qrtype qrtype = true ->
  Forall2 (fun t d => esc_pressed t = false
                      /\ snd (read_single_qr validate (frame t) qrtype) = Ok d)
          ticks ds ->
  ds ≡ₚ [fragment 1 3 a; fragment 2 3 b; fragment 3 3 c] ->
  snd (read_qr_code validate qrtype ticks) = Ok (Result (a +:+ b +:+ c)).
Proof.
  intros Hv HF Hp. rewrite (snd_read_qr_code _ _ _ Hv).
  apply three_orders in Hp.
  repeat (apply elem_of_cons in Hp as [-> | Hp]);
    [ | | | | | | apply elem_of_nil in Hp; contradiction ];
    apply Forall2_cons_inv_r in HF as (t1 & ts1 & [He1 Hr1] & HF & ->);
    apply Forall2_cons_inv_r in HF as (t2 & ts2 & [He2 Hr2] & HF & ->);
    apply Forall2_cons_inv_r in HF as (t3 & ts3 & [He3 Hr3] & HF & ->);
    apply Forall2_nil_inv_r in HF as ->;
    rewrite scan_loop_cons, (iteration_dict _ _ _ _ _ He1 Hr1 eq_refl);
    eval_absorb;
    rewrite scan_loop_cons, (iteration_dict _ _ _ _ _ He2 Hr2 eq_refl);
    eval_absorb;
    rewrite scan_loop_cons, (iteration_dict _ _ _ _ _ He3 Hr3 eq_refl);
    eval_absorb;
    reflexivity.
Qed.

Lemma any_arrival_order_witness :
  snd (read_qr_code sample_validator "psbt"
         [Tick (-1) ["p3of3 C"]; Tick (-1) ["p1of3 A"]; Tick (-1) ["p2of3 B"]])
  = Ok (Result "ABC").
Proof.
  apply (any_arrival_order sample_validator "psbt" _
           [fragment 3 3 "C"; fragment 1 3 "A"; fragment 2 3 "B"] "A" "B" "C").
  - reflexivity.
  - repeat constructor.
  - apply (Permutation_app_comm [fragment 3 3 "C"]
             [fragment 1 3 "A"; fragment 2 3 "B"]).
Defined.

(** The same for the account-map kind, through the parser, for each of
    the six orders. *)
Lemma any_arrival_order_accountmap (raws : list string) :
  raws ≡ₚ ["p1of3 A"; "p2of3 B"; "p3of3 C"] ->
  snd (read_qr_code sample_validator "accountmap"
         (map (fun raw => Tick (-1) [raw]) raws))
  = Ok (Result "ABC").
Proof.
  intros H. apply three_orders in H.
  repeat (apply elem_of_cons in H as [-> | H]);
    [reflexivity.. | apply elem_of_nil in H; contradiction].
Qed.

Lemma no_completion_before_full_witness :
  exists tr,
    scan_loop sample_validator "psbt" []
      [Tick (-1) ["p1of3 A"]; Tick (-1) ["p1of3 A"]; Tick (-1) [];
       Tick (-1) ["p3of3 C"]]
    = (tr, Ok (Running, [Some "A"; None; Some "C"]))
    /\ Running <> Left.
Proof.
  eexists. split; [reflexivity|].
  eapply (no_completion_before_full sample_validator "psbt" []
            [Some "A"; None; Some "C"]
            [Tick (-1) ["p1of3 A"]; Tick (-1) ["p1of3 A"]; Tick (-1) [];
             Tick (-1) ["p3of3 C"]]).
  - reflexivity.
  - reflexivity.
  - right. reflexivity.
Defined.

Lemma cancel_raises_with_slots_witness :
  releases (fst (read_qr_code sample_validator "psbt"
                   [Tick (-1) ["p1of3 A"]; Tick 27 []])) = 1%nat
  /\ exists msg,
       snd (read_qr_code sample_validator "psbt"
              [Tick (-1) ["p1of3 A"]; Tick 27 []])
       = Raise (TypeError msg).
Proof.
  edestruct (cancel_raises_with_slots sample_validator "psbt" eq_refl
               [Tick (-1) ["p1of3 A"]] (Tick 27 [])) as (H1 & _ & H3).
  - reflexivity.
  - reflexivity.
  - split; [exact H1|]. apply H3. discriminate.
Defined.

(** The failing input of C7, run: one fragment of three is scanned, then
    the escape key is pressed. *)
Lemma cancel_with_one_slot_filled :
  read_qr_code sample_validator "psbt" [Tick (-1) ["p1of3 A"]; Tick 27 []]
  = ([CameraOpen; CameraRead; Print MsgStarting;
      ImShow; CameraRead; Print MsgQRScanned;
      Print (MsgScannedOf 0 3); Print MsgAdding;
      ImShow; Print MsgReleasing; CameraRelease],
     Raise (TypeError "sequence item 1: expected str instance, NoneType found")).
Proof. reflexivity. Qed.

Lemma cancel_before_any_fragment :
  read_qr_code sample_validator "psbt" [Tick (-1) []; Tick 27 []]
  = ([CameraOpen; CameraRead; Print MsgStarting;
      ImShow; CameraRead; ImShow; Print MsgReleasing; CameraRelease],
     Ok (Result EmptyString)).
Proof. reflexivity. Qed.

Lemma release_only_after_break_witness :
  snd (read_qr_code sample_validator "psbt" [Tick (-1) ["cHNidP8BAH"]])
  = Ok (Result "cHNidP8BAH")
  /\ releases (fst (read_qr_code sample_validator "psbt"
                      [Tick (-1) ["cHNidP8BAH"]])) = 0%nat.
Proof.
  split; [reflexivity|].
  rewrite (release_only_after_break sample_validator "psbt" eq_refl).
  reflexivity.
Defined.

(** The failing inputs of C8, run: a whole payload in one frame is
    returned with the camera still open; so is the [IndexError] of a
    part index beyond the part count. *)
Lemma whole_payload_returned_without_release :
  read_qr_code sample_validator "psbt" [Tick (-1) ["cHNidP8BAH"]]
  = ([CameraOpen; CameraRead; Print MsgStarting;
      ImShow; CameraRead; Print MsgQRScanned],
     Ok (Result "cHNidP8BAH")).
Proof. reflexivity. Qed.

Lemma index_error_without_release :
  read_qr_code sample_validator "psbt" [Tick (-1) ["p4of3 X"]]
  = ([CameraOpen; CameraRead; Print MsgStarting;
      ImShow; CameraRead; Print MsgQRScanned; Print (MsgScannedOf 0 3)],
     Raise (IndexError "list index out of range")).
Proof. reflexivity. Qed.

(** ** The scenarios of the specification *)

Example scenario_duplicate_frame :
  snd (read_qr_code sample_validator "psbt"
         [Tick (-1) ["p1of2 AAA"]; Tick (-1) ["p1of2 AAA"]; Tick (-1) ["p2of2 BBB"]])
  = Ok (Result "AAABBB").
Proof. reflexivity. Qed.

Example scenario_accountmap_whole :
  snd (read_qr_code sample_validator "accountmap"
         [Tick (-1) [sample_descriptor]])
  = Ok (Result sample_descriptor).
Proof. reflexivity. Qed.

Example scenario_accountmap_parts :
  snd (read_qr_code sample_validator "accountmap"
         [Tick (-1) ["p1of2 wsh(sortedmulti("]; Tick (-1) ["p2of2 1,xpubA,xpubB))"]])
  = Ok (Result "wsh(sortedmulti(1,xpubA,xpubB))").
Proof. reflexivity. Qed.

Example scenario_malformed_frame_skipped :
  read_qr_code sample_validator "psbt" [Tick (-1) ["a b c"]]
  = ([CameraOpen; CameraRead; Print MsgStarting; ImShow; CameraRead;
      Print (MsgScanError "Invalid 3 part QR payload: a b c")],
     Ok StillScanning).
Proof. reflexivity. Qed.

Example header_digits : 
  _parse_specter_desktop_psbt "p2of10 AAA"
  = Ok (QrDict (Some 2) (Some 10) (Some "AAA")).
Proof. reflexivity. Qed.

(** * Further properties of the parsers *)

(** ** Decimal numbers *)

Lemma all_digits_string_of_uint (d : Decimal.uint) :
  all_digits (NilEmpty.string_of_uint d) = true.
Proof. induction d; simpl; auto. Qed.

Lemma int_of_digits_string_of_uint (d : Decimal.uint) (acc : nat) :
  int_of_digits (Z.of_nat acc) (NilEmpty.string_of_uint d)
  = Z.of_nat (Nat.of_uint_acc d acc).
Proof.
  revert acc. induction d; intros acc; cbn [NilEmpty.string_of_uint
    int_of_digits Nat.of_uint_acc]; [reflexivity|..];
    rewrite <- IHd; f_equal; rewrite Nat.tail_mul_spec;
    unfold digit_value;
    match goal with
    | |- context [Ascii.nat_of_ascii ?c] =>
        let v := eval vm_compute in (Z.of_nat (Ascii.nat_of_ascii c)) in
        change (Z.of_nat (Ascii.nat_of_ascii c)) with v
    end; lia.
Qed.

Lemma str_of_nat_digits (n : nat) :
  nonempty (str_of_nat n) = true /\ all_digits (str_of_nat n) = true.
Proof.
  unfold str_of_nat, NilZero.string_of_uint.
  destruct (Nat.to_uint n) eqn:E; try (split; [reflexivity|]);
    try apply all_digits_string_of_uint.
  reflexivity.
Qed.

(** [int(str(n)) == n] *)
Lemma int_of_str_of_nat (n : nat) :
  int_of_digits 0 (str_of_nat n) = Z.of_nat n.
Proof.
  unfold str_of_nat, NilZero.string_of_uint.
  rewrite <- (DecimalNat.Unsigned.of_to n) at 2. unfold Nat.of_uint.
  destruct (Nat.to_uint n) eqn:E;
    try exact (int_of_digits_string_of_uint _ 0).
  reflexivity.
Qed.

Lemma int_of_digits_nonneg (s : string) (acc : Z) :
  all_digits s = true -> 0 <= acc -> 0 <= int_of_digits acc s.
Proof.
  revert acc. induction s as [|c s IH]; intros acc Hd Ha; [exact Ha|].
  simpl in *. apply andb_true_iff in Hd as [Hc Hd].
  apply IH; [exact Hd|].
  unfold is_digit in Hc. apply andb_true_iff in Hc as [H1 H2].
  apply Nat.leb_le in H1, H2. unfold digit_value. lia.
Qed.

Lemma py_int_Ok (s : string) (z : Z) :
  py_int s = Ok z ->
  nonempty s = true /\ all_digits s = true /\ within_digit_limit s = true
  /\ z = int_of_digits 0 s /\ 0 <= z.
Proof.
  intros H. destruct (py_int_cases s) as [(N & D & L & E)|[msg E]];
    rewrite E in H; [|discriminate].
  injection H as <-. repeat split; auto.
  apply int_of_digits_nonneg; [exact D|lia].
Qed.

Lemma py_int_Raise (s : string) (e : exn) :
  py_int s = Raise e -> exists msg, e = ValueError msg.
Proof.
  intros H. destruct (py_int_cases s) as [(_ & _ & _ & E)|[msg E]];
    rewrite E in H; [discriminate|].
  injection H as <-. eauto.
Qed.

(** ** Tokens *)

Lemma split_space_tokens (s : string) :
  Forall (fun tok => has_space tok = false) (split_space s).
Proof.
  induction s as [|c s IH]; simpl; [repeat constructor|].
  destruct (Ascii.eqb c space) eqn:E; [constructor; [reflexivity|exact IH]|].
  destruct (split_space s) as [|p ps]; [repeat constructor; simpl; rewrite E; reflexivity|].
  inversion IH; subst. constructor; [|assumption].
  simpl. rewrite E. assumption.
Qed.

Lemma split_space_has_space (s : string) :
  has_space s = true -> (2 <= length (split_space s))%nat.
Proof.
  induction s as [|c s IH]; simpl; [discriminate|].
  pose proof (split_space_not_nil s) as Hn.
  destruct (Ascii.eqb c space); simpl.
  - intros _. destruct (split_space s); [contradiction|simpl; lia].
  - intros H. specialize (IH H). destruct (split_space s); simpl in *; lia.
Qed.

(** ** What the parsers return *)

(** The transaction parser on a header and a body without space. *)
Lemma psbt_header_body (d1 d2 body : string) :
  nonempty d1 = true -> all_digits d1 = true -> within_digit_limit d1 = true ->
  nonempty d2 = true -> all_digits d2 = true -> within_digit_limit d2 = true ->
  has_space body = false ->
  _parse_specter_desktop_psbt
    (("p" +:+ d1 +:+ "of" +:+ d2) +:+ String space body)
  = Ok (fragment (int_of_digits 0 d1) (int_of_digits 0 d2) body).
Proof.
  intros N1 D1 L1 N2 D2 L2 Hb.
  pose proof (header_no_space _ _ D1 D2) as Hh.
  assert (Hs : split_space (("p" +:+ d1 +:+ "of" +:+ d2) +:+ String space body)
               = ["p" +:+ d1 +:+ "of" +:+ d2; body]).
  { rewrite (split_space_app _ body Hh), (split_space_no_space body Hb).
    reflexivity. }
  pose proof (psbt_two_tokens _ _ _ Hs) as Hp.
  rewrite (re_match_xofy_header _ _ D1 D2) in Hp. rewrite Hp.
  exact (int_groups_ok _ _ _
           (fun x y => Ok (QrDict (Some x) (Some y) (Some body)))
           N1 D1 L1 N2 D2 L2).
Qed.

(** X1.  A header written with the decimal numbers of a part index i
    and a part count n, each of at most 4300 digits, is read back as
    exactly i and n.  The transaction parser returns a body without
    space unchanged; the account-map parser returns any body unchanged,
    spaces included. *)
Theorem header_numbers_round_trip (validate : string -> result unit)
    (i n : nat) (body : string) :
  within_digit_limit (str_of_nat i) = true ->
  within_digit_limit (str_of_nat n) = true ->
  (has_space body = false ->
   _parse_specter_desktop_psbt
     (("p" +:+ str_of_nat i +:+ "of" +:+ str_of_nat n) +:+ String space body)
   = Ok (fragment (Z.of_nat i) (Z.of_nat n) body))
  /\ _parse_specter_desktop_accountmap validate
       (("p" +:+ str_of_nat i +:+ "of" +:+ str_of_nat n) +:+ String space body)
     = Ok (fragment (Z.of_nat i) (Z.of_nat n) body).
Proof.
  intros Li Ln.
  destruct (str_of_nat_digits i) as [Ni Di].
  destruct (str_of_nat_digits n) as [Nn Dn].
  split.
  - intros Hb. rewrite (psbt_header_body _ _ body Ni Di Li Nn Dn Ln Hb).
    rewrite !int_of_str_of_nat. reflexivity.
  - rewrite (accountmap_text_after_header validate _ _ body Ni Di Li Nn Dn Ln).
    rewrite !int_of_str_of_nat. reflexivity.
Qed.

Lemma header_numbers_round_trip_witness :
  _parse_specter_desktop_psbt "p12of345 cHNidP8BAH"
  = Ok (fragment 12 345 "cHNidP8BAH").
Proof.
  exact (proj1 (header_numbers_round_trip sample_validator 12 345 "cHNidP8BAH"
                  eq_refl eq_refl)
           eq_refl).
Defined.

Lemma readable_header_iff (tok : string) :
  readable_header tok = true <->
  exists d1 d2 tl,
    tok = "p" +:+ d1 +:+ "of" +:+ d2 +:+ tl
    /\ nonempty d1 = true /\ all_digits d1 = true /\ within_digit_limit d1 = true
    /\ nonempty d2 = true /\ all_digits d2 = true /\ within_digit_limit d2 = true
    /\ starts_with_digit tl = false.
Proof.
  unfold readable_header. split.
  - destruct (re_match_xofy tok) as [[g1 g2]|] eqn:E; [|discriminate].
    intros H. apply andb_true_iff in H as [H L2].
    apply andb_true_iff in H as [H L1]. apply andb_true_iff in H as [N1 N2].
    apply re_match_xofy_sound in E as (tl & -> & D1 & D2 & Ht).
    exists g1, g2, tl. auto 10.
  - intros (d1 & d2 & tl & -> & N1 & D1 & L1 & N2 & D2 & L2 & Ht).
    rewrite (re_match_xofy_complete d1 d2 tl D1 D2 Ht), N1, N2, L1, L2.
    reflexivity.
Qed.

(** X2.  The transaction parser accepts a text exactly when it has no
    space, or has one space and a first token made of p, a run of
    digits, of, a second run of digits, and then anything that does not
    go on with a digit, each run of at least one and at most 4300
    digits. *)
Theorem psbt_accepts_iff (raw : string) :
  (exists d, _parse_specter_desktop_psbt raw = Ok d)
  <-> has_space raw = false
      \/ exists d1 d2 tl body,
           split_space raw = ["p" +:+ d1 +:+ "of" +:+ d2 +:+ tl; body]
           /\ nonempty d1 = true /\ all_digits d1 = true
           /\ within_digit_limit d1 = true
           /\ nonempty d2 = true /\ all_digits d2 = true
           /\ within_digit_limit d2 = true
           /\ starts_with_digit tl = false.
Proof.
  split.
  - intros [d H]. unfold _parse_specter_desktop_psbt in H.
    destruct (split_space raw) as [|h [|body [|c l]]] eqn:Es; try discriminate.
    + left. apply split_space_single in Es as [_ Hs]. exact Hs.
    + right.
      assert (Hr : readable_header h = true).
      { unfold readable_header.
        destruct (re_match_xofy h) as [[g1 g2]|]; [|discriminate].
        destruct (py_int g1) as [x|e] eqn:E1; [|discriminate].
        destruct (py_int g2) as [y|e] eqn:E2; [|discriminate].
        apply py_int_Ok in E1 as (-> & _ & -> & _).
        apply py_int_Ok in E2 as (-> & _ & -> & _). reflexivity. }
      apply readable_header_iff in Hr as (d1 & d2 & tl & -> & Hr).
      exists d1, d2, tl, body. split; [reflexivity|exact Hr].
  - intros [H|(d1 & d2 & tl & body & Hs & N1 & D1 & L1 & N2 & D2 & L2 & Ht)].
    + eexists. apply psbt_single_token, H.
    + pose proof (psbt_two_tokens _ _ _ Hs) as Hp.
      rewrite (re_match_xofy_complete d1 d2 tl D1 D2 Ht) in Hp.
      rewrite Hp, (int_groups_ok _ d1 d2 _ N1 D1 L1 N2 D2 L2).
      eexists. reflexivity.
Qed.

(** X3.  Whatever the text, the transaction parser either returns a
    dict with all three keys, a part index and a part count that are
    not negative and a text without space, or raises [ValueError]; it
    raises nothing else. *)
Theorem psbt_outcome (raw : string) :
  match _parse_specter_desktop_psbt raw with
  | Ok d => exists x y v, d = fragment x y v
                          /\ 0 <= x /\ 0 <= y /\ has_space v = false
  | Raise e => exists msg, e = ValueError msg
  end.
Proof.
  unfold _parse_specter_desktop_psbt.
  pose proof (split_space_tokens raw) as Ht.
  destruct (split_space raw) as [|h [|body [|c l]]] eqn:Es; try (eexists; reflexivity).
  - apply split_space_single in Es as [_ Hs].
    exists 1, 1, raw. repeat split; [lia|lia|exact Hs].
  - destruct (re_match_xofy h) as [[g1 g2]|]; [|eexists; reflexivity].
    destruct (py_int g1) as [x|e] eqn:E1; cbn; [|exact (py_int_Raise _ _ E1)].
    destruct (py_int g2) as [y|e] eqn:E2; cbn; [|exact (py_int_Raise _ _ E2)].
    apply py_int_Ok in E1 as (_ & _ & _ & _ & Hx).
    apply py_int_Ok in E2 as (_ & _ & _ & _ & Hy).
    inversion Ht as [|? ? _ Ht']; subst. inversion Ht' as [|? ? Hb _]; subst.
    exists x, y, body. auto.
Qed.

(** X4.  Whatever the text, the account-map parser ends in one of four
    ways.  It returns the text whole, in a dict with the text as the
    only key, when the header pattern does not match and the validator
    accepts the text.  It returns a fragment with numbers that are not
    negative and the tokens after the first joined by spaces, when the
    pattern matches; the validator is not asked then, so any other
    validator gives the same result.  It raises [ValueError] when the
    pattern matches with an empty group.  It raises what the validator
    raises when the pattern does not match and the validator rejects
    the text. *)
Theorem accountmap_outcome (validate : string -> result unit) (raw : string) :
  match _parse_specter_desktop_accountmap validate raw with
  | Ok d =>
      (d = QrDict None None (Some raw) /\ validate raw = Ok tt)
      \/ (exists x y rest,
            d = fragment x y (join " " rest) /\ 0 <= x /\ 0 <= y
            /\ (exists h, split_space raw = h :: rest)
            /\ forall validate',
                 _parse_specter_desktop_accountmap validate' raw = Ok d)
  | Raise e =>
      (exists msg, e = ValueError msg) \/ validate raw = Raise e
  end.
Proof.
  unfold _parse_specter_desktop_accountmap.
  destruct (split_space raw) as [|h rest] eqn:Es;
    [exfalso; exact (split_space_not_nil _ Es)|].
  destruct (re_match_xofy h) as [[g1 g2]|].
  - destruct (py_int g1) as [x|e] eqn:E1; cbn;
      [|left; exact (py_int_Raise _ _ E1)].
    destruct (py_int g2) as [y|e] eqn:E2; cbn;
      [|left; exact (py_int_Raise _ _ E2)].
    apply py_int_Ok in E1 as (_ & _ & _ & _ & Hx).
    apply py_int_Ok in E2 as (_ & _ & _ & _ & Hy).
    right. exists x, y, rest. repeat split; eauto.
  - destruct (validate raw) as [[]|e]; cbn; auto.
Qed.

(** X5.  A text with a space that the transaction parser accepts is read
    by the account-map parser to the same dict, whatever the
    validator. *)
Theorem parsers_agree_on_fragments (validate : string -> result unit)
    (raw : string) (d : qr_dict) :
  has_space raw = true ->
  _parse_specter_desktop_psbt raw = Ok d ->
  _parse_specter_desktop_accountmap validate raw = Ok d.
Proof.
  intros Hs H. apply split_space_has_space in Hs.
  unfold _parse_specter_desktop_psbt in H.
  unfold _parse_specter_desktop_accountmap.
  destruct (split_space raw) as [|h [|body [|c l]]]; simpl in Hs;
    try lia; try discriminate.
  destruct (re_match_xofy h) as [[g1 g2]|]; [|discriminate].
  destruct (py_int g1) as [x|e]; [|discriminate].
  destruct (py_int g2) as [y|e]; [|discriminate].
  exact H.
Qed.

Lemma parsers_agree_on_fragments_witness :
  _parse_specter_desktop_accountmap sample_validator "p2of3 cHNidP8BAH"
  = Ok (fragment 2 3 "cHNidP8BAH").
Proof.
  apply (parsers_agree_on_fragments sample_validator "p2of3 cHNidP8BAH").
  - reflexivity.
  - reflexivity.
Defined.

Lemma within_digit_limit_tail (c : ascii) (s : string) :
  within_digit_limit (String c s) = true -> within_digit_limit s = true.
Proof.
  unfold within_digit_limit. cbn [String.length]. intros H.
  apply Z.leb_le in H. apply Z.leb_le. lia.
Qed.

(** X17.  Zeros in front of the numbers of a header change nothing, as
    long as the runs of digits stay within the 4300 digits [int]
    reads: both parsers read the header with a zero put in front of
    each number to the same dict as the header without. *)
Theorem leading_zeros_ignored (validate : string -> result unit)
    (d1 d2 body : string) :
  nonempty d1 = true -> all_digits d1 = true ->
  within_digit_limit (String "0" d1) = true ->
  nonempty d2 = true -> all_digits d2 = true ->
  within_digit_limit (String "0" d2) = true ->
  has_space body = false ->
  _parse_specter_desktop_psbt
    (("p" +:+ String "0" d1 +:+ "of" +:+ String "0" d2) +:+ String space body)
  = _parse_specter_desktop_psbt
      (("p" +:+ d1 +:+ "of" +:+ d2) +:+ String space body)
  /\ _parse_specter_desktop_accountmap validate
       (("p" +:+ String "0" d1 +:+ "of" +:+ String "0" d2) +:+ String space body)
     = _parse_specter_desktop_accountmap validate
         (("p" +:+ d1 +:+ "of" +:+ d2) +:+ String space body).
Proof.
  intros N1 D1 Z1 N2 D2 Z2 Hb.
  pose proof (within_digit_limit_tail _ _ Z1) as L1.
  pose proof (within_digit_limit_tail _ _ Z2) as L2.
  assert (A1 : all_digits (String "0" d1) = true) by (simpl; exact D1).
  assert (A2 : all_digits (String "0" d2) = true) by (simpl; exact D2).
  split.
  - rewrite (psbt_header_body (String "0" d1) (String "0" d2) body
               eq_refl A1 Z1 eq_refl A2 Z2 Hb).
    rewrite (psbt_header_body d1 d2 body N1 D1 L1 N2 D2 L2 Hb). reflexivity.
  - rewrite (accountmap_text_after_header validate (String "0" d1)
               (String "0" d2) body eq_refl A1 Z1 eq_refl A2 Z2).
    rewrite (accountmap_text_after_header validate d1 d2 body N1 D1 L1 N2 D2 L2).
    reflexivity.
Qed.

Lemma leading_zeros_ignored_witness :
  _parse_specter_desktop_psbt "p02of010 AAA"
  = _parse_specter_desktop_psbt "p2of10 AAA".
Proof.
  exact (proj1 (leading_zeros_ignored sample_validator "2" "10" "AAA"
                  eq_refl eq_refl eq_refl eq_refl eq_refl eq_refl eq_refl)).
Defined.

(** * Further properties of the slot array *)

Lemma py_index_length {A : Type} (l l' : list A) (i : Z) :
  length l = length l' -> py_index l i = py_index l' i.
Proof. intros H. unfold py_index. rewrite H. reflexivity. Qed.





(** A slot reads back what was written to it. *)
Lemma py_getitem_setitem {A : Type} (l l' : list A) (i : Z) (v : A) :
  py_setitem l i v = Ok l' -> py_getitem l' i = Ok v.
Proof.
  unfold py_setitem. destruct (py_index l i) as [k|] eqn:Ek; [|discriminate].
  intros [= <-]. unfold py_getitem.
  rewrite <- (py_index_length l (<[k:=v]> l) i) by (symmetry; apply length_insert).
  rewrite Ek, list_lookup_insert_eq by exact (py_index_lt _ _ _ Ek).
  reflexivity.
Qed.

(** What [absorb] does with a fragment of several, slot array or not. *)
Lemma absorb_fragment (qrs : list (option string)) (x y : Z) (v : string) :
  y <> 1 ->
  absorb qrs (fragment x y v) =
  let slots := allocated qrs y in
  let scanned := Print (MsgScannedOf (num_scanned slots) (length slots)) in
  match py_getitem slots (x - 1) with
  | Raise e => ([scanned], Raise e)
  | Ok (Some _) =>
      ([scanned; Print (MsgAlreadyScanned x)],
       Ok (if none_not_in slots then Break else Continue, slots))
  | Ok None =>
      match py_setitem slots (x - 1) (Some v) with
      | Raise e => ([scanned; Print MsgAdding], Raise e)
      | Ok qrs' =>
          ([scanned; Print MsgAdding],
           Ok (if none_not_in qrs' then Break else Continue, qrs'))
      end
  end.
Proof.
  intros Hy. unfold absorb, fragment. cbn [x_int y_int payload].
  change (default 1 (Some y)) with y.
  rewrite (proj2 (Z.eqb_neq y 1) Hy).
  assert (Ha : (match qrs with
                | [] => bind (getitem "y_int" (Some y))
                          (fun y0 => ret (replicate (Z.to_nat y0) None))
                | _ :: _ => ret qrs
                end) = ret (allocated qrs y)) by (destruct qrs; reflexivity).
  rewrite Ha. clear Ha. cbn.
  destruct (py_getitem (allocated qrs y) (x - 1)) as [[s|]|e]; cbn.
  - destruct (none_not_in (allocated qrs y)); reflexivity.
  - destruct (py_setitem (allocated qrs y) (x - 1) (Some v)) as [qrs'|e]; cbn;
      [|reflexivity].
    destruct (none_not_in qrs'); reflexivity.
  - reflexivity.
Qed.

(** A dict whose slot is filled leaves the slots as they are, whatever
    else the dict holds. *)
Lemma absorb_filled (qrs : list (option string)) (d : qr_dict)
    (x y : Z) (s : string) :
  y_int d = Some y -> y <> 1 -> x_int d = Some x -> qrs <> [] ->
  py_getitem qrs (x - 1) = Ok (Some s) ->
  snd (absorb qrs d) = Ok (if none_not_in qrs then Break else Continue, qrs).
Proof.
  intros Hdy Hy Hdx Hq Hg.
  assert (Hm : forall (B : Type) (a b : B),
             match qrs with [] => a | _ :: _ => b end = b)
    by (intros; destruct qrs; [contradiction|reflexivity]).
  unfold absorb. rewrite Hdy, Hdx.
  change (default 1 (Some y)) with y.
  rewrite (proj2 (Z.eqb_neq y 1) Hy), Hm. cbn.
  rewrite Hg. cbn. destruct (none_not_in qrs); reflexivity.
Qed.

(** Filled slots are never written again. *)
Lemma absorb_keeps (qrs qrs' : list (option string)) (d : qr_dict)
    (tr : list effect) (c : control) (j : nat) (s : string) :
  qrs <> [] ->
  absorb qrs d = (tr, Ok (c, qrs')) ->
  qrs !! j = Some (Some s) -> qrs' !! j = Some (Some s).
Proof.
  intros Hq H Hj. apply absorb_cases in H as [(_ & -> & _)|H]; [exact Hj|].
  destruct H as (x & y & slot & _ & _ & _ & Hg & Hs & _).
  assert (Ha : allocated qrs y = qrs) by (destruct qrs; [contradiction|reflexivity]).
  rewrite Ha in *. destruct slot as [s0|]; [subst; exact Hj|].
  destruct Hs as (v & _ & Hs).
  apply py_getitem_Ok in Hg as (k & Hk & Hl).
  unfold py_setitem in Hs. rewrite Hk in Hs. injection Hs as <-.
  rewrite list_lookup_insert_ne; [exact Hj|].
  intros ->. congruence.
Qed.





(** X8.  Part index 0 names the last slot: with a slot array, a fragment
    with part index 0 fills, or finds filled, the same slot as the
    fragment with the highest part index, and leaves the same array. *)
Theorem part_index_zero_is_last (qrs : list (option string)) (y : Z) (v : string) :
  qrs <> [] -> y <> 1 ->
  snd (absorb qrs (fragment 0 y v))
  = snd (absorb qrs (fragment (Z.of_nat (length qrs)) y v)).
Proof.
  intros Hq Hy. rewrite !absorb_fragment by exact Hy. cbn zeta.
  assert (Ha : allocated qrs y = qrs) by (destruct qrs; [contradiction|reflexivity]).
  rewrite Ha.
  assert (Hl : (0 < length qrs)%nat) by (destruct qrs; [contradiction|simpl; lia]).
  assert (Hi : py_index qrs (0 - 1) = py_index qrs (Z.of_nat (length qrs) - 1)).
  { unfold py_index.
    replace ((0 <=? 0 - 1) && (0 - 1 <? Z.of_nat (length qrs))) with false
      by (symmetry; apply andb_false_iff; left; apply Z.leb_gt; lia).
    replace ((- Z.of_nat (length qrs) <=? 0 - 1) && (0 - 1 <? 0)) with true
      by (symmetry; apply andb_true_iff; split;
          [apply Z.leb_le|apply Z.ltb_lt]; lia).
    replace ((0 <=? Z.of_nat (length qrs) - 1)
             && (Z.of_nat (length qrs) - 1 <? Z.of_nat (length qrs))) with true
      by (symmetry; apply andb_true_iff; split;
          [apply Z.leb_le|apply Z.ltb_lt]; lia).
    f_equal. lia. }
  unfold py_getitem, py_setitem. rewrite Hi.
  destruct (py_index qrs (Z.of_nat (length qrs) - 1)) as [k|]; [|reflexivity].
  destruct (qrs !! k) as [[s|]|]; reflexivity.
Qed.

Lemma part_index_zero_is_last_witness :
  snd (absorb [Some "A"; None; None] (fragment 0 3 "C"))
  = snd (absorb [Some "A"; None; None] (fragment 3 3 "C")).
Proof.
  apply (part_index_zero_is_last [Some "A"; None; None] 3 "C").
  - discriminate.
  - lia.
Defined.

(** * Further properties of the loop *)

Section LoopFacts.

Variable validate : string -> result unit.
Variable qrtype : string.

(** The result of a turn, case by case. *)
Lemma snd_iteration (qrs : list (option string)) (t : tick) :
  snd (iteration validate qrtype qrs t)
  = if esc_pressed t then Ok (Break, qrs)
    else match snd (read_single_qr validate (frame t) qrtype) with
         | Ok d => if dict_bool d then snd (absorb qrs d)
                   else Ok (Continue, qrs)
         | Raise (ValueError _) => Ok (Continue, qrs)
         | Raise e => Raise e
         end.
Proof.
  unfold iteration. cbn. destruct (esc_pressed t); [reflexivity|]. cbn.
  destruct (read_single_qr validate (frame t) qrtype) as [tr [d|e]]; cbn.
  - destruct (dict_bool d); cbn; [|reflexivity].
    destruct (absorb qrs d). reflexivity.
  - destruct e; reflexivity.
Qed.

(** A turn either keeps the slots or is an [absorb]. *)
Lemma iteration_state (qrs qrs' : list (option string)) (t : tick)
    (tr : list effect) (c : control) :
  iteration validate qrtype qrs t = (tr, Ok (c, qrs')) ->
  qrs' = qrs \/ exists d tr', absorb qrs d = (tr', Ok (c, qrs')).
Proof.
  intros H. destruct (esc_pressed t) eqn:He.
  - rewrite (iteration_esc _ _ _ _ He) in H. injection H as _ _ <-. left.
    reflexivity.
  - apply (iteration_cases _ _ _ _ _ _ _ He) in H
      as [[_ ->]|(d & tr' & _ & _ & Ha)]; [left; reflexivity|].
    right. eauto.
Qed.

(** A relation between slot arrays that every [absorb] respects holds
    between the slots before and after the loop. *)
Lemma scan_loop_rel (R : list (option string) -> list (option string) -> Prop) :
  (forall q, R q q) ->
  (forall q1 q2 q3, R q1 q2 -> R q2 q3 -> R q1 q3) ->
  (forall q d tr c q', absorb q d = (tr, Ok (c, q')) -> R q q') ->
  forall ticks qrs tr ex qrs',
    scan_loop validate qrtype qrs ticks = (tr, Ok (ex, qrs')) -> R qrs qrs'.
Proof.
  intros Hrefl Htrans Hstep. induction ticks as [|t ticks IH];
    intros qrs tr ex qrs' H.
  - cbn in H. injection H as _ _ <-. apply Hrefl.
  - cbn [scan_loop] in H.
    apply bind_Ok in H as (tr1 & [c q] & tr2 & Hi & Hk & ->).
    assert (Hq : R qrs q).
    { apply iteration_state in Hi as [->|(d & tr' & Ha)];
        [apply Hrefl|exact (Hstep _ _ _ _ _ Ha)]. }
    destruct c as [| |v].
    + exact (Htrans _ _ _ Hq (IH _ _ _ _ Hk)).
    + injection Hk as _ _ <-. exact Hq.
    + injection Hk as _ _ <-. exact Hq.
Qed.

(** X9.  Once the slot array exists, the loop never changes its length
    and never changes or empties a filled slot, whatever frames
    follow: the first text written to a slot stays. *)
Theorem slots_kept (qrs qrs' : list (option string)) (ticks : list tick)
    (tr : list effect) (ex : loop_exit) :
  qrs <> [] ->
  scan_loop validate qrtype qrs ticks = (tr, Ok (ex, qrs')) ->
  length qrs' = length qrs
  /\ forall j s, qrs !! j = Some (Some s) -> qrs' !! j = Some (Some s).
Proof.
  intros Hq H. revert Hq.
  apply (scan_loop_rel
           (fun q q' => q <> [] ->
              length q' = length q
              /\ forall j s, q !! j = Some (Some s) -> q' !! j = Some (Some s)))
    with (ticks := ticks) (tr := tr) (ex := ex); [| | |exact H].
  - intros q _. auto.
  - intros q1 q2 q3 H12 H23 Hn. destruct (H12 Hn) as [L12 K12].
    assert (Hn2 : q2 <> []) by (intros ->; destruct q1; [contradiction|discriminate]).
    destruct (H23 Hn2) as [L23 K23]. split; [congruence|].
    intros j s Hj. apply K23, K12, Hj.
  - intros q d tr0 c q' Ha Hn. split.
    + exact (absorb_length _ _ _ _ _ Hn Ha).
    + intros j s. exact (absorb_keeps _ _ _ _ _ j s Hn Ha).
Qed.

Lemma absorb_again (qrs q : list (option string)) (d : qr_dict) :
  snd (absorb qrs d) = Ok (Continue, q) ->
  snd (absorb q d) = Ok (Continue, q).
Proof.
  destruct (absorb qrs d) as [tr r] eqn:Ea. cbn. intros ->.
  destruct (absorb_continue _ _ _ _ Ea) as [Hn Hf].
  apply absorb_cases in Ea as [(_ & _ & v & _ & Hc)|Ea]; [discriminate|].
  destruct Ea as (x & y & slot & Hdy & Hy & Hdx & Hg & Hs & _).
  assert (exists s, py_getitem q (x - 1) = Ok (Some s)) as [s Hs'].
  { destruct slot as [s|].
    - subst q. eauto.
    - destruct Hs as (v & _ & Hs). exists v.
      exact (py_getitem_setitem _ _ _ _ Hs). }
  rewrite (absorb_filled q d x y s Hdy Hy Hdx Hn Hs'), Hf. reflexivity.
Qed.

Lemma iteration_again (qrs q : list (option string)) (t : tick) :
  snd (iteration validate qrtype qrs t) = Ok (Continue, q) ->
  snd (iteration validate qrtype q t) = Ok (Continue, q).
Proof.
  rewrite !snd_iteration. destruct (esc_pressed t); [discriminate|].
  destruct (snd (read_single_qr validate (frame t) qrtype)) as [d|e].
  - destruct (dict_bool d).
    + apply absorb_again.
    + intros [= <-]. reflexivity.
  - destruct e; try discriminate. intros [= <-]. reflexivity.
Qed.

(** X10.  Showing the loop the same turn twice in a row gives the same
    result as showing it once: a code that the camera reads again in
    the next frame changes nothing. *)
Theorem same_frame_twice (qrs : list (option string)) (t : tick)
    (ticks : list tick) :
  snd (scan_loop validate qrtype qrs (t :: t :: ticks))
  = snd (scan_loop validate qrtype qrs (t :: ticks)).
Proof.
  rewrite (scan_loop_cons _ _ qrs t (t :: ticks)), (scan_loop_cons _ _ qrs t ticks).
  destruct (snd (iteration validate qrtype qrs t)) as [[[| |v] q]|e] eqn:E;
    try reflexivity.
  rewrite scan_loop_cons, (iteration_again _ _ _ E). reflexivity.
Qed.

End LoopFacts.

Lemma slots_kept_witness :
  exists tr,
    scan_loop sample_validator "psbt" [Some "A"; None; None]
      [Tick (-1) ["p1of3 Z"]; Tick (-1) ["p3of3 C"]]
    = (tr, Ok (Running, [Some "A"; None; Some "C"]))
    /\ length [Some "A"; None; Some "C"] = length [Some "A"; None; None]
    /\ [Some "A"; None; Some "C"] !! 0%nat = Some (Some "A").
Proof.
  eexists. split; [reflexivity|].
  edestruct (slots_kept sample_validator "psbt" [Some "A"; None; None]
               [Some "A"; None; Some "C"]
               [Tick (-1) ["p1of3 Z"]; Tick (-1) ["p3of3 C"]]) as [H1 H2].
  - discriminate.
  - reflexivity.
  - split; [exact H1|]. apply H2. reflexivity.
Defined.

(** * What leaves the function *)

Lemma psbt_fragment (raw : string) (d : qr_dict) :
  _parse_specter_desktop_psbt raw = Ok d -> exists x y v, d = fragment x y v.
Proof.
  unfold _parse_specter_desktop_psbt.
  destruct (split_space raw) as [|h [|body [|c l]]]; try discriminate.
  - intros [= <-]. eexists _, _, _. reflexivity.
  - destruct (re_match_xofy h) as [[g1 g2]|]; [|discriminate].
    destruct (py_int g1) as [x|e]; [|discriminate].
    destruct (py_int g2) as [y|e]; [|discriminate].
    intros [= <-]. eexists _, _, _. reflexivity.
Qed.

Lemma psbt_raises (raw : string) (e : exn) :
  _parse_specter_desktop_psbt raw = Raise e -> exists msg, e = ValueError msg.
Proof.
  unfold _parse_specter_desktop_psbt.
  destruct (split_space raw) as [|h [|body [|c l]]]; try discriminate;
    try (intros [= <-]; eauto).
  destruct (re_match_xofy h) as [[g1 g2]|]; [|intros [= <-]; eauto].
  destruct (py_int g1) as [x|e1] eqn:E1; cbn;
    [|intros [= <-]; exact (py_int_Raise _ _ E1)].
  destruct (py_int g2) as [y|e2] eqn:E2; cbn;
    [discriminate|intros [= <-]; exact (py_int_Raise _ _ E2)].
Qed.

Lemma accountmap_dict (validate : string -> result unit) (raw : string)
    (d : qr_dict) :
  _parse_specter_desktop_accountmap validate raw = Ok d ->
  d = QrDict None None (Some raw) \/ exists x y v, d = fragment x y v.
Proof.
  unfold _parse_specter_desktop_accountmap.
  destruct (split_space raw) as [|h rest]; [discriminate|].
  destruct (re_match_xofy h) as [[g1 g2]|].
  - destruct (py_int g1) as [x|e]; [|discriminate].
    destruct (py_int g2) as [y|e]; [|discriminate].
    intros [= <-]. right. eexists _, _, _. reflexivity.
  - destruct (validate raw) as [u|e]; [|discriminate].
    intros [= <-]. left. reflexivity.
Qed.

Lemma accountmap_raises (validate : string -> result unit) (raw : string)
    (e : exn) :
  _parse_specter_desktop_accountmap validate raw = Raise e ->
  (exists msg, e = ValueError msg) \/ validate raw = Raise e.
Proof.
  unfold _parse_specter_desktop_accountmap.
  destruct (split_space raw) as [|h rest] eqn:Es;
    [exfalso; exact (split_space_not_nil _ Es)|].
  destruct (re_match_xofy h) as [[g1 g2]|].
  - destruct (py_int g1) as [x|e1] eqn:E1; cbn;
      [|intros [= <-]; left; exact (py_int_Raise _ _ E1)].
    destruct (py_int g2) as [y|e2] eqn:E2; cbn;
      [discriminate|intros [= <-]; left; exact (py_int_Raise _ _ E2)].
  - destruct (validate raw) as [u|e1]; cbn; [discriminate|].
    intros [= <-]. right. reflexivity.
Qed.

Section Leaves.

Variable validate : string -> result unit.
Variable qrtype : string.
Hypothesis qrtype_valid : valid_qrtype qrtype = true.

Lemma snd_read_single_qr (fr : list string) :
  snd (read_single_qr validate fr qrtype)
  = match fr with
    | [] => Ok empty_dict
    | qrcode_data :: _ =>
        if bool_decide (qrtype = "psbt")
        then _parse_specter_desktop_psbt qrcode_data
        else _parse_specter_desktop_accountmap validate qrcode_data
    end.
Proof.
  unfold read_single_qr. rewrite qrtype_valid. cbn.
  destruct fr as [|c fr]; [reflexivity|].
  destruct (bool_decide (qrtype = "psbt")); cbn.
  - destruct (_parse_specter_desktop_psbt c); reflexivity.
  - destruct (_parse_specter_desktop_accountmap validate c); reflexivity.
Qed.

(** What a frame can be read to. *)
Lemma read_single_qr_dict (fr : list string) (d : qr_dict) :
  snd (read_single_qr validate fr qrtype) = Ok d ->
  d = empty_dict
  \/ (exists raw, d = QrDict None None (Some raw))
  \/ exists x y v, d = fragment x y v.
Proof.
  rewrite snd_read_single_qr. destruct fr as [|c fr].
  - intros [= <-]. left. reflexivity.
  - destruct (bool_decide (qrtype = "psbt")); intros H.
    + right. right. exact (psbt_fragment _ _ H).
    + right. apply accountmap_dict in H as [->|H]; eauto.
Qed.

Lemma read_single_qr_raises (fr : list string) (e : exn) :
  snd (read_single_qr validate fr qrtype) = Raise e ->
  (exists msg, e = ValueError msg)
  \/ (qrtype = "accountmap" /\ exists raw, validate raw = Raise e).
Proof.
  rewrite snd_read_single_qr. destruct fr as [|c fr]; [discriminate|].
  destruct (bool_decide (qrtype = "psbt")) eqn:Ep; intros H.
  - left. exact (psbt_raises _ _ H).
  - apply accountmap_raises in H as [H|H]; [left; exact H|]. right.
    split; [|eauto].
    unfold valid_qrtype in qrtype_valid. rewrite Ep, orb_false_r in qrtype_valid.
    apply bool_decide_eq_true in qrtype_valid. exact qrtype_valid.
Qed.

End Leaves.

(** The dicts the parsers build make [absorb] raise nothing but the
    [IndexError] of a part index out of range. *)
Lemma absorb_raises (qrs : list (option string)) (d : qr_dict) (e : exn) :
  (d = empty_dict
   \/ (exists raw, d = QrDict None None (Some raw))
   \/ exists x y v, d = fragment x y v) ->
  dict_bool d = true ->
  snd (absorb qrs d) = Raise e ->
  e = IndexError "list index out of range".
Proof.
  intros [->|[[raw ->]|(x & y & v & ->)]] Hb; [discriminate|discriminate|].
  destruct (Z.eq_dec y 1) as [->|Hy]; [discriminate|].
  rewrite (absorb_fragment qrs x y v Hy). cbn zeta.
  destruct (py_getitem (allocated qrs y) (x - 1)) as [[s|]|e0] eqn:Eg.
  - discriminate.
  - apply py_getitem_Ok in Eg as (k & Hk & _).
    unfold py_setitem. rewrite Hk. discriminate.
  - unfold py_getitem in Eg.
    destruct (py_index (allocated qrs y) (x - 1)) as [k|];
      [destruct (allocated qrs y !! k); [discriminate|]|];
      injection Eg as <-; intros [= <-]; reflexivity.
Qed.

(** Any dict makes [absorb] raise nothing but [IndexError] and
    [KeyError]. *)
Lemma absorb_raises_any (qrs : list (option string)) (d : qr_dict) (e : exn) :
  snd (absorb qrs d) = Raise e ->
  (exists msg, e = IndexError msg) \/ (exists k, e = KeyError k).
Proof.
  unfold absorb. destruct d as [dx dy dp]. cbn [x_int y_int payload].
  destruct (default 1 dy =? 1).
  - destruct dp; cbn; [discriminate|]. intros [= <-]. eauto.
  - assert (Ha : exists m : M (list (option string)),
               (match qrs with
                | [] => bind (getitem "y_int" dy)
                          (fun y0 => ret (replicate (Z.to_nat y0) None))
                | _ :: _ => ret qrs
                end) = m
               /\ (fst m = [] /\ forall e0, snd m = Raise e0 -> e0 = KeyError "y_int")).
    { eexists. split; [reflexivity|].
      destruct qrs; [destruct dy|]; cbn; split; try reflexivity;
        try discriminate. intros e0 [= <-]. reflexivity. }
    destruct Ha as ([tr0 r0] & -> & Htr & Hr). cbn in Htr, Hr. subst tr0.
    destruct r0 as [slots|e0]; cbn.
    + destruct dx as [x|]; cbn; [|intros [= <-]; eauto].
      destruct (py_getitem slots (x - 1)) as [[s|]|e0] eqn:Eg; cbn.
      * destruct (none_not_in slots); discriminate.
      * destruct dp as [v|]; cbn; [|intros [= <-]; eauto].
        apply py_getitem_Ok in Eg as (k & Hk & _).
        unfold py_setitem. rewrite Hk. cbn.
        destruct (none_not_in (<[k:=Some v]> slots)); discriminate.
      * unfold py_getitem in Eg.
        destruct (py_index slots (x - 1)) as [k|];
          [destruct (slots !! k); [discriminate|]|];
          injection Eg as <-; intros [= <-]; eauto.
    + intros [= <-]. rewrite (Hr e0 eq_refl). eauto.
Qed.

Section Exceptions.

Variable validate : string -> result unit.
Variable qrtype : string.

Lemma scan_loop_raise (qrs : list (option string)) (ticks : list tick) (e : exn) :
  snd (scan_loop validate qrtype qrs ticks) = Raise e ->
  exists t q, t ∈ ticks /\ snd (iteration validate qrtype q t) = Raise e.
Proof.
  revert qrs. induction ticks as [|t ticks IH]; intros qrs; [discriminate|].
  rewrite scan_loop_cons.
  destruct (snd (iteration validate qrtype qrs t)) as [[[| |v] q]|e0] eqn:E;
    try discriminate.
  - intros H. destruct (IH q H) as (t' & q' & Hin & Hr).
    exists t', q'. split; [right; exact Hin|exact Hr].
  - intros [= <-]. exists t, qrs. split; [left|exact E].
Qed.

Lemma iteration_raise (qrs : list (option string)) (t : tick) (e : exn) :
  snd (iteration validate qrtype qrs t) = Raise e ->
  (snd (read_single_qr validate (frame t) qrtype) = Raise e
   /\ forall msg, e <> ValueError msg)
  \/ exists d, snd (read_single_qr validate (frame t) qrtype) = Ok d
               /\ dict_bool d = true /\ snd (absorb qrs d) = Raise e.
Proof.
  rewrite snd_iteration. destruct (esc_pressed t); [discriminate|].
  destruct (snd (read_single_qr validate (frame t) qrtype)) as [d|e0].
  - destruct (dict_bool d) eqn:Ed; [|discriminate]. intros H. right. eauto.
  - destruct e0; try discriminate; intros [= <-]; left; split;
      try reflexivity; discriminate.
Qed.

(** X11.  No [ValueError] ever leaves [read_qr_code]: a code that a
    parser rejects never ends the scan, whatever the kind, the
    validator and the frames. *)
Theorem no_value_error_leaves (ticks : list tick) (msg : string) :
  snd (read_qr_code validate qrtype ticks) <> Raise (ValueError msg).
Proof.
  destruct (valid_qrtype qrtype) eqn:Hv.
  - rewrite (snd_read_qr_code _ _ _ Hv).
    destruct (snd (scan_loop validate qrtype [] ticks)) as [[[| |v] q]|e] eqn:E;
      try discriminate.
    + destruct (none_not_in q) eqn:Hn.
      * rewrite (join_slots_full _ _ Hn). discriminate.
      * destruct (join_slots_partial EmptyString q Hn) as [m ->]. discriminate.
    + intros [= ->].
      apply scan_loop_raise in E as (t & q & _ & E).
      apply iteration_raise in E as [[_ E]|(d & _ & _ & E)].
      * exact (E msg eq_refl).
      * apply absorb_raises_any in E as [[m E]|[k E]]; discriminate.
  - unfold read_qr_code. rewrite Hv. discriminate.
Qed.

Lemma scan_loop_without_nothing (qrs : list (option string)) (ticks : list tick) :
  snd (scan_loop validate qrtype qrs
         (List.filter (fun t => negb (shows_nothing validate qrtype t)) ticks))
  = snd (scan_loop validate qrtype qrs ticks).
Proof.
  revert qrs. induction ticks as [|t ticks IH]; intros qrs; [reflexivity|].
  cbn [List.filter]. destruct (shows_nothing validate qrtype t) eqn:Hs; cbn [negb].
  - rewrite IH, (scan_loop_cons _ _ qrs t ticks), snd_iteration.
    unfold shows_nothing in Hs. apply andb_true_iff in Hs as [He Hs].
    apply negb_true_iff in He. rewrite He.
    destruct (snd (read_single_qr validate (frame t) qrtype)) as [d|e].
    + apply negb_true_iff in Hs. rewrite Hs. reflexivity.
    + destruct e; try discriminate. reflexivity.
  - rewrite !scan_loop_cons.
    destruct (snd (iteration validate qrtype qrs t)) as [[[| |v] q]|e];
      try reflexivity.
    apply IH.
Qed.

(** X13.  Frames without a code and frames with a code the parser
    rejects can be taken out of the sequence, as many as there are and
    wherever they stand, without changing what [read_qr_code]
    returns or raises. *)
Theorem empty_and_malformed_frames_skipped (ticks : list tick) :
  snd (read_qr_code validate qrtype
         (List.filter (fun t => negb (shows_nothing validate qrtype t)) ticks))
  = snd (read_qr_code validate qrtype ticks).
Proof.
  destruct (valid_qrtype qrtype) eqn:Hv.
  - rewrite !(snd_read_qr_code _ _ _ Hv), scan_loop_without_nothing.
    reflexivity.
  - unfold read_qr_code. rewrite Hv. reflexivity.
Qed.

Lemma iteration_first_code (qrs : list (option string)) (t : tick) :
  iteration validate qrtype qrs (first_code_only t)
  = iteration validate qrtype qrs t.
Proof.
  unfold iteration, first_code_only, esc_pressed. cbn [key frame].
  assert (H : read_single_qr validate (take 1 (frame t)) qrtype
              = read_single_qr validate (frame t) qrtype).
  { unfold read_single_qr. destruct (frame t); reflexivity. }
  rewrite H. reflexivity.
Qed.

(** X14.  Of the codes a frame shows only the first is used: cutting
    every frame down to its first code changes neither the result of
    [read_qr_code] nor what it prints and does. *)
Theorem only_first_code_used (ticks : list tick) :
  read_qr_code validate qrtype (map first_code_only ticks)
  = read_qr_code validate qrtype ticks.
Proof.
  assert (H : forall qrs,
             scan_loop validate qrtype qrs (map first_code_only ticks)
             = scan_loop validate qrtype qrs ticks).
  { induction ticks as [|t ticks' IH]; intros qrs; [reflexivity|].
    cbn [map scan_loop]. rewrite iteration_first_code.
    destruct (iteration validate qrtype qrs t) as [tr [[[| |v] q]|e]];
      cbn [bind]; try reflexivity.
    rewrite IH. reflexivity. }
  unfold read_qr_code. rewrite H. reflexivity.
Qed.

End Exceptions.

(** X12.  Scanning transactions, no [KeyError] ever leaves
    [read_qr_code]: every key the loop reads in a scanned dict is in
    the dict that the parser built. *)
Theorem no_key_error_psbt (validate : string -> result unit)
    (ticks : list tick) (key : string) :
  snd (read_qr_code validate "psbt" ticks) <> Raise (KeyError key).
Proof.
  assert (Hv : valid_qrtype "psbt" = true) by reflexivity.
  rewrite (snd_read_qr_code _ _ _ Hv).
  destruct (snd (scan_loop validate "psbt" [] ticks)) as [[[| |v] q]|e] eqn:E;
    try discriminate.
  - destruct (none_not_in q) eqn:Hn.
    + rewrite (join_slots_full _ _ Hn). discriminate.
    + destruct (join_slots_partial EmptyString q Hn) as [m ->]. discriminate.
  - intros [= ->].
    apply scan_loop_raise in E as (t & q & _ & E).
    apply iteration_raise in E as [[E Hne]|(d & Hd & Hb & E)].
    + apply (read_single_qr_raises _ _ Hv) in E as [[m E]|[Hk _]];
        discriminate.
    + apply (read_single_qr_dict _ _ Hv) in Hd.
      pose proof (absorb_raises q d _ Hd Hb E). discriminate.
Qed.

(** * The end of the scan *)

Section Ending.

Variable validate : string -> result unit.
Variable qrtype : string.

(** X19.  A code that is a whole payload ends the scan at once, in
    whatever state the session is: its text is returned as it is and
    the parts collected so far are dropped. *)
Theorem whole_payload_ends_scan (qrs : list (option string)) (t : tick)
    (more : list tick) (d : qr_dict) (v : string) :
  esc_pressed t = false ->
  snd (read_single_qr validate (frame t) qrtype) = Ok d ->
  default 1 (y_int d) = 1 ->
  payload d = Some v ->
  snd (scan_loop validate qrtype qrs (t :: more)) = Ok (Returned v, qrs).
Proof.
  intros He Hr Hy Hp. rewrite scan_loop_cons, snd_iteration, He, Hr.
  assert (Hb : dict_bool d = true).
  { unfold dict_bool. rewrite Hp. destruct (x_int d), (y_int d); reflexivity. }
  rewrite Hb. unfold absorb. rewrite Hy, Hp. reflexivity.
Qed.

End Ending.

Lemma whole_payload_ends_scan_witness :
  snd (scan_loop sample_validator "psbt" [Some "A"; None; None]
         [Tick (-1) ["cHNidP8BAH"]; Tick (-1) ["p2of3 B"]])
  = Ok (Returned "cHNidP8BAH", [Some "A"; None; None]).
Proof.
  apply (whole_payload_ends_scan sample_validator "psbt" [Some "A"; None; None]
           (Tick (-1) ["cHNidP8BAH"]) [Tick (-1) ["p2of3 B"]]
           (fragment 1 1 "cHNidP8BAH")).
  - reflexivity.
  - reflexivity.
  - reflexivity.
  - reflexivity.
Defined.

(** * Assembling a payload of any number of parts *)

Lemma py_index_nonneg {A : Type} (l : list A) (i : Z) :
  0 <= i < Z.of_nat (length l) -> py_index l i = Some (Z.to_nat i).
Proof.
  intros H. unfold py_index.
  replace ((0 <=? i) && (i <? Z.of_nat (length l))) with true; [reflexivity|].
  symmetry. apply andb_true_iff. split; [apply Z.leb_le|apply Z.ltb_lt]; lia.
Qed.

Lemma slots_fit_replicate (texts : list string) :
  slots_fit texts (replicate (length texts) None).
Proof.
  apply Forall2_replicate_l; [reflexivity|].
  apply Forall_forall. intros txt _. left. reflexivity.
Qed.

(** Slots that fit and are all filled are the texts themselves. *)
Lemma slots_fit_full (texts : list string) (qrs : list (option string)) :
  slots_fit texts qrs -> none_not_in qrs = true -> omap id qrs = texts.
Proof.
  unfold slots_fit, none_not_in. induction 1 as [|slot txt qrs texts Hp _ IH];
    [reflexivity|].
  cbn. destruct slot as [s|]; [|discriminate].
  intros Hn. destruct Hp as [Hp|Hp]; [discriminate|]. injection Hp as ->.
  cbn. f_equal. exact (IH Hn).
Qed.

Lemma is_filled_not_none (qrs : list (option string)) :
  (forall j, (j < length qrs)%nat -> is_filled qrs j) -> none_not_in qrs = true.
Proof.
  intros H. destruct (none_not_in qrs) eqn:E; [reflexivity|].
  apply none_not_in_false, list_elem_of_lookup_1 in E as [i Hi].
  destruct (H i (lookup_lt_Some _ _ _ Hi)) as [s Hs]. congruence.
Qed.

Section Assembly.

Variable validate : string -> result unit.
Variable qrtype : string.
Variable texts : list string.
Hypothesis two_parts : (2 <= length texts)%nat.

(** What a dict that fits is. *)
Lemma dict_fits_fragment (d : qr_dict) :
  dict_fits texts d = true -> dict_bool d = true ->
  exists j v, d = fragment (Z.of_nat (S j)) (Z.of_nat (length texts)) v
              /\ texts !! j = Some v.
Proof.
  unfold dict_fits. intros H Hb. rewrite Hb in H. cbn in H.
  destruct d as [[x|] [y|] [v|]]; cbn in H; try discriminate.
  apply andb_true_iff in H as [H H3]. apply andb_true_iff in H as [H1 H2].
  apply Z.eqb_eq in H1. apply Z.leb_le in H2. apply bool_decide_eq_true in H3.
  exists (Z.to_nat (x - 1)), v. split; [|exact H3].
  unfold fragment. f_equal; f_equal; lia.
Qed.

(** One fragment of the payload, absorbed into slots that fit. *)
Lemma fits_step (qrs : list (option string)) (j : nat) (v : string) :
  qrs = [] \/ slots_fit texts qrs ->
  texts !! j = Some v ->
  exists qrs',
    snd (absorb qrs (fragment (Z.of_nat (S j)) (Z.of_nat (length texts)) v))
    = Ok (if none_not_in qrs' then Break else Continue, qrs')
    /\ slots_fit texts qrs' /\ is_filled qrs' j
    /\ forall i, is_filled qrs i -> is_filled qrs' i.
Proof.
  intros Hq Hj.
  rewrite absorb_fragment by lia. cbn zeta.
  set (slots := allocated qrs (Z.of_nat (length texts))).
  assert (Hfit : slots_fit texts slots
                 /\ forall i, is_filled qrs i -> is_filled slots i).
  { unfold slots, allocated. destruct qrs as [|q0 qrs0].
    - rewrite Nat2Z.id. split; [apply slots_fit_replicate|].
      intros i [s Hs]. discriminate.
    - destruct Hq as [Hq|Hq]; [discriminate|]. auto. }
  destruct Hfit as [Hfit Hkeep].
  pose proof (Forall2_length _ _ _ Hfit) as Hlen.
  pose proof (lookup_lt_Some _ _ _ Hj) as Hlt.
  assert (Hi : py_index slots (Z.of_nat (S j) - 1) = Some j).
  { rewrite py_index_nonneg by lia. f_equal. lia. }
  destruct (lookup_lt_is_Some_2 slots j) as [slot Hslot]; [lia|].
  unfold py_getitem, py_setitem. rewrite Hi, Hslot.
  destruct slot as [s|].
  - exists slots. split; [reflexivity|]. split; [exact Hfit|].
    split; [exists s; exact Hslot|exact Hkeep].
  - exists (<[j:=Some v]> slots). split; [reflexivity|]. split; [|split].
    + unfold slots_fit. rewrite <- (list_insert_id texts j v Hj).
      apply Forall2_insert; [exact Hfit|]. right. reflexivity.
    + exists v. apply list_lookup_insert_eq. lia.
    + intros i Hfi. destruct (Hkeep i Hfi) as [s Hs]. exists s.
      rewrite list_lookup_insert_ne; [exact Hs|]. intros ->. congruence.
Qed.

(** The loop over turns that fit: it raises nothing and does not return
    from inside; its slots fit; it is left only with all slots filled;
    and while it runs, every part shown so far is in its slot. *)
Lemma scan_fits (ticks : list tick) (qrs : list (option string)) :
  forallb (frame_fits validate qrtype texts) ticks = true ->
  (qrs = [] \/ (slots_fit texts qrs /\ none_not_in qrs = false)) ->
  exists ex qrs',
    snd (scan_loop validate qrtype qrs ticks) = Ok (ex, qrs')
    /\ (qrs' = [] \/ slots_fit texts qrs')
    /\ match ex with
       | Running =>
           (qrs' = [] \/ none_not_in qrs' = false)
           /\ (forall i, is_filled qrs i -> is_filled qrs' i)
           /\ (forall i t, t ∈ ticks ->
                 shows_part validate qrtype i t = true -> is_filled qrs' i)
       | Left => slots_fit texts qrs' /\ none_not_in qrs' = true
       | Returned _ => False
       end.
Proof.
  revert qrs. induction ticks as [|t ticks IH]; intros qrs Hf Hq.
  - exists Running, qrs. split; [reflexivity|]. split; [tauto|].
    split; [tauto|]. split; [auto|].
    intros i t Hin. inversion Hin.
  - cbn [forallb] in Hf. apply andb_true_iff in Hf as [Ht Hf].
    unfold frame_fits in Ht. apply andb_true_iff in Ht as [He Ht].
    apply negb_true_iff in He.
    rewrite scan_loop_cons, snd_iteration, He.
    assert (Hskip : (forall i, shows_part validate qrtype i t = false) ->
              exists ex qrs',
                snd (scan_loop validate qrtype qrs ticks) = Ok (ex, qrs')
                /\ (qrs' = [] \/ slots_fit texts qrs')
                /\ match ex with
                   | Running =>
                       (qrs' = [] \/ none_not_in qrs' = false)
                       /\ (forall i, is_filled qrs i -> is_filled qrs' i)
                       /\ (forall i t0, t0 ∈ t :: ticks ->
                             shows_part validate qrtype i t0 = true ->
                             is_filled qrs' i)
                   | Left => slots_fit texts qrs' /\ none_not_in qrs' = true
                   | Returned _ => False
                   end).
    { intros Hn. destruct (IH qrs Hf Hq) as (ex & qrs' & Hs & Hfit & Hex).
      exists ex, qrs'. split; [exact Hs|]. split; [exact Hfit|].
      destruct ex as [| |w]; [|exact Hex|exact Hex].
      destruct Hex as (Hopen & Hk & Hshown).
      split; [exact Hopen|]. split; [exact Hk|].
      intros i t0 Hin Hsp. apply elem_of_cons in Hin as [->|Hin];
        [|exact (Hshown i t0 Hin Hsp)].
      rewrite Hn in Hsp. discriminate. }
    destruct (snd (read_single_qr validate (frame t) qrtype)) as [d|e] eqn:Er.
    + destruct (dict_bool d) eqn:Ed.
      * destruct (dict_fits_fragment d Ht Ed) as (j & v & -> & Hj).
        assert (Hq' : qrs = [] \/ slots_fit texts qrs) by tauto.
        destruct (fits_step qrs j v Hq' Hj) as (q & Ha & Hfit & Hfj & Hk).
        rewrite Ha. destruct (none_not_in q) eqn:Hn.
        -- exists Left, q. auto.
        -- destruct (IH q Hf (or_intror (conj Hfit Hn)))
             as (ex & qrs' & Hs & Hfit' & Hex).
           exists ex, qrs'. split; [exact Hs|]. split; [exact Hfit'|].
           destruct ex as [| |w]; [|exact Hex|exact Hex].
           destruct Hex as (Hopen & Hk' & Hshown).
           split; [exact Hopen|]. split.
           ++ intros i Hi. apply Hk', Hk, Hi.
           ++ intros i t0 Hin Hsp. apply elem_of_cons in Hin as [->|Hin];
                [|exact (Hshown i t0 Hin Hsp)].
              unfold shows_part in Hsp. rewrite Er in Hsp.
              apply bool_decide_eq_true in Hsp.
              unfold fragment in Hsp. cbn [x_int] in Hsp.
              assert (Hji : Z.of_nat (S j) = Z.of_nat (S i)) by congruence.
              assert (j = i) as -> by lia. apply Hk', Hfj.
      * apply Hskip. intros i. unfold shows_part. rewrite Er.
        apply bool_decide_eq_false. intros Hx.
        unfold dict_bool in Ed. rewrite Hx in Ed. discriminate.
    + destruct e; try discriminate.
      apply Hskip. intros i. unfold shows_part. rewrite Er. reflexivity.
Qed.

End Assembly.

(** X15.  Let the turns carry, in any order and as often as they like,
    parts of one payload cut in two or more parts, between frames
    without a code or with a malformed one, and no escape key.  Then
    [read_qr_code] raises nothing, and if it has returned, it has
    returned the texts of all parts joined in the order of their part
    indices. *)
Theorem assembled_in_index_order (validate : string -> result unit)
    (qrtype : string) (texts : list string) (ticks : list tick) :
  (2 <= length texts)%nat ->
  valid_qrtype qrtype = true ->
  forallb (frame_fits validate qrtype texts) ticks = true ->
  snd (read_qr_code validate qrtype ticks) = Ok StillScanning
  \/ snd (read_qr_code validate qrtype ticks)
     = Ok (Result (join EmptyString texts)).
Proof.
  intros Hl Hv Hf. rewrite (snd_read_qr_code _ _ _ Hv).
  destruct (scan_fits validate qrtype texts Hl ticks [] Hf (or_introl eq_refl))
    as (ex & qrs' & -> & _ & Hex).
  destruct ex as [| |w]; [left; reflexivity| |contradiction].
  destruct Hex as [Hfit Hn]. right.
  rewrite (join_slots_full _ _ Hn), (slots_fit_full _ _ Hfit Hn). reflexivity.
Qed.

(** X16.  If moreover every part is shown by some turn, [read_qr_code]
    has returned, and what it returns is the payload: the texts of the
    parts joined in the order of their part indices, whatever the order
    of arrival, the repetitions and the frames in between. *)
Theorem all_parts_shown (validate : string -> result unit)
    (qrtype : string) (texts : list string) (ticks : list tick) :
  (2 <= length texts)%nat ->
  valid_qrtype qrtype = true ->
  forallb (frame_fits validate qrtype texts) ticks = true ->
  forallb (fun k => existsb (shows_part validate qrtype k) ticks)
          (seq 0 (length texts)) = true ->
  snd (read_qr_code validate qrtype ticks)
  = Ok (Result (join EmptyString texts)).
Proof.
  intros Hl Hv Hf Hall. rewrite (snd_read_qr_code _ _ _ Hv).
  destruct (scan_fits validate qrtype texts Hl ticks [] Hf (or_introl eq_refl))
    as (ex & qrs' & -> & Hfit' & Hex).
  destruct ex as [| |w]; [exfalso| |contradiction].
  - destruct Hex as (Hopen & _ & Hshown).
    assert (Hfilled : forall i, (i < length texts)%nat -> is_filled qrs' i).
    { intros i Hi. rewrite forallb_forall in Hall.
      assert (Hin : In i (seq 0 (length texts))) by (apply in_seq; lia).
      specialize (Hall i Hin). apply existsb_exists in Hall as (t & Ht & Hsp).
      apply (Hshown i t); [apply list_elem_of_In; exact Ht|exact Hsp]. }
    destruct Hfit' as [->|Hfit'].
    + destruct (Hfilled 0%nat) as [s Hs]; [lia|discriminate].
    + pose proof (Forall2_length _ _ _ Hfit') as Hlen.
      assert (Hn : none_not_in qrs' = true).
      { apply is_filled_not_none. intros j Hj. apply Hfilled. lia. }
      destruct Hopen as [->|Hopen]; [simpl in Hlen; lia|congruence].
  - destruct Hex as [Hfit Hn].
    rewrite (join_slots_full _ _ Hn), (slots_fit_full _ _ Hfit Hn). reflexivity.
Qed.

Lemma assembled_in_index_order_witness :
  snd (read_qr_code sample_validator "psbt"
         [Tick (-1) ["p3of4 C"]; Tick (-1) []; Tick (-1) ["p1of4 A"]])
  = Ok StillScanning
  \/ snd (read_qr_code sample_validator "psbt"
            [Tick (-1) ["p3of4 C"]; Tick (-1) []; Tick (-1) ["p1of4 A"]])
     = Ok (Result "ABCD").
Proof.
  apply (assembled_in_index_order sample_validator "psbt" ["A"; "B"; "C"; "D"]).
  - simpl. lia.
  - reflexivity.
  - reflexivity.
Defined.

Lemma all_parts_shown_witness :
  snd (read_qr_code sample_validator "accountmap"
         [Tick (-1) ["p3of4 C"]; Tick (-1) ["x y z"]; Tick (-1) ["p4of4 D"];
          Tick (-1) ["p3of4 C"]; Tick (-1) []; Tick (-1) ["p1of4 A"];
          Tick (-1) ["p2of4 B"]])
  = Ok (Result "ABCD").
Proof.
  apply (all_parts_shown sample_validator "accountmap" ["A"; "B"; "C"; "D"]).
  - simpl. lia.
  - reflexivity.
  - reflexivity.
  - reflexivity.
Defined.
